(** * Figma-Context-MCP: the security validation layer of the outbound fetcher

    A shallow embedding of [src/utils/security-validation.ts] and of the
    retrying fetcher that is gated by it.

    Conventions.
    - A JavaScript string is the sequence of its UTF-16 code units
      ([jsstring]); [length] counts code units, as [String.prototype.length]
      does, and regular expressions without the [u] flag work on code units.
    - A thrown [Error] is a value of type [exn] carrying its message.
    - The validators run in the monad [M]: a run yields the lines handed to
      [Logger.error] and either the exception thrown or the value returned.
    - In comments the double quote character is written [\x22] (the same
      character in JavaScript regular-expression syntax). *)

From Stdlib Require Import List PeanoNat NArith Bool Ascii String DecimalString Lia.
From Stdlib Require Import Permutation.
Import ListNotations.

Local Open Scope N_scope.

(* ================================================================= *)
(** ** JavaScript strings *)

Module JS.

Definition jsstring := list N.

(** A source literal without double quotes. *)
Definition lit (s : string) : jsstring :=
  List.map N_of_ascii (list_ascii_of_string s).

(** The double quote, code unit 0x22. *)
Definition DQ : N := 34.

Definition length (s : jsstring) : N := N.of_nat (List.length s).

(** [!s] for a string: true exactly for the empty string. *)
Definition falsy (s : jsstring) : bool :=
  match s with [] => true | _ :: _ => false end.

Fixpoint eqb (a b : jsstring) : bool :=
  match a, b with
  | [], [] => true
  | x :: a', y :: b' => (x =? y) && eqb a' b'
  | _, _ => false
  end.

(** [s.startsWith(p)] *)
Fixpoint startsWith (s p : jsstring) {struct p} : bool :=
  match p, s with
  | [], _ => true
  | y :: p', x :: s' => (x =? y) && startsWith s' p'
  | _ :: _, [] => false
  end.

(** [s.endsWith(p)] *)
Definition endsWith (s p : jsstring) : bool :=
  startsWith (rev s) (rev p).

(** [s.substring(0, n)] *)
Definition substring0 (n : nat) (s : jsstring) : jsstring := firstn n s.

(** [arr.includes(x)] on an array of strings *)
Definition includes (arr : list jsstring) (x : jsstring) : bool :=
  existsb (eqb x) arr.

(** ECMAScript WhiteSpace and LineTerminator code points: what [\s] matches
    and what [trim] strips. *)
Definition isWhiteSpace (c : N) : bool :=
  ((9 <=? c) && (c <=? 13)) || (c =? 32) || (c =? 160) || (c =? 5760)
  || ((8192 <=? c) && (c <=? 8202)) || (c =? 8232) || (c =? 8233)
  || (c =? 8239) || (c =? 8287) || (c =? 12288) || (c =? 65279).

Fixpoint trimStart (s : jsstring) : jsstring :=
  match s with
  | c :: s' => if isWhiteSpace c then trimStart s' else s
  | [] => []
  end.

Definition trimEnd (s : jsstring) : jsstring := rev (trimStart (rev s)).

(** [s.trim()] *)
Definition trim (s : jsstring) : jsstring := trimEnd (trimStart s).

(** [String.prototype.toLowerCase] on the ASCII range.  It is only applied
    to [URL.hostname] of an http(s) URL, which the platform has already
    converted to ASCII. *)
Definition lowerUnit (c : N) : N :=
  if (65 <=? c) && (c <=? 90) then c + 32 else c.

Definition toLowerCase (s : jsstring) : jsstring := List.map lowerUnit s.

(** Decimal rendering of a number inside a template literal. *)
Definition digitsOf (n : N) : jsstring :=
  lit (DecimalString.NilEmpty.string_of_uint (N.to_uint n)).

End JS.
Import JS.

(* ================================================================= *)
(** ** Regular expressions

    The fragment of ECMAScript regular expressions the validators use:
    literal code units, character classes, concatenation, alternation,
    greedy repetition of a character class, negative lookahead and the
    end-of-input assertion.  [rmatch] is a backtracking matcher in
    continuation-passing style; [test] is [RegExp.prototype.test] on a
    pattern without flags (a match may start at any index). *)

Module Regex.

Inductive regex : Type :=
| Eps
| Chr (c : N)
| Cls (p : N -> bool)
| Seq (a b : regex)
| Alt (a b : regex)
| StarCls (p : N -> bool)
| NegLook (a : regex)
| Eos.

Fixpoint starCls (p : N -> bool) (s : jsstring) (k : jsstring -> bool) : bool :=
  match s with
  | c :: s' => if p c then starCls p s' k || k s else k s
  | [] => k []
  end.

Fixpoint rmatch (r : regex) (s : jsstring) (k : jsstring -> bool) : bool :=
  match r with
  | Eps => k s
  | Chr c => match s with x :: s' => (x =? c) && k s' | [] => false end
  | Cls p => match s with x :: s' => p x && k s' | [] => false end
  | Seq a b => rmatch a s (fun s' => rmatch b s' k)
  | Alt a b => rmatch a s k || rmatch b s k
  | StarCls p => starCls p s k
  | NegLook a => negb (rmatch a s (fun _ => true)) && k s
  | Eos => match s with [] => k [] | _ :: _ => false end
  end.

Definition matchesAt (r : regex) (s : jsstring) : bool :=
  rmatch r s (fun _ => true).

Fixpoint test (r : regex) (s : jsstring) : bool :=
  matchesAt r s || match s with [] => false | _ :: s' => test r s' end.

(** Class builders. *)
Definition oneOf (cs : jsstring) (c : N) : bool := existsb (N.eqb c) cs.
Definition noneOf (cs : jsstring) (c : N) : bool := negb (oneOf cs c).
Definition range (lo hi : N) (c : N) : bool := (lo <=? c) && (c <=? hi).
Definition orCls (p q : N -> bool) (c : N) : bool := p c || q c.

(** A literal sequence of code units. *)
Fixpoint Lit (cs : jsstring) : regex :=
  match cs with
  | [] => Eps
  | [c] => Chr c
  | c :: cs' => Seq (Chr c) (Lit cs')
  end.

(** Concatenation of a list of pieces. *)
Fixpoint Cat (rs : list regex) : regex :=
  match rs with
  | [] => Eps
  | [r] => r
  | r :: rs' => Seq r (Cat rs')
  end.

(** Declarative reading: [Matches r m rest] says that [r], started where
    [m ++ rest] remains, can consume exactly [m]. *)
Fixpoint Matches (r : regex) (m rest : jsstring) : Prop :=
  match r with
  | Eps => m = []
  | Chr c => m = [c]
  | Cls p => exists c, m = [c] /\ p c = true
  | Seq a b => exists m1 m2, m = m1 ++ m2 /\ Matches a m1 (m2 ++ rest) /\ Matches b m2 rest
  | Alt a b => Matches a m rest \/ Matches b m rest
  | StarCls p => forallb p m = true
  | NegLook a => m = [] /\ ~ (exists m' rest', rest = m' ++ rest' /\ Matches a m' rest')
  | Eos => m = [] /\ rest = []
  end.

End Regex.
Import Regex.

(* ================================================================= *)
(** ** Exceptions and logging *)

Module Effects.

(** [new Error(message)] *)
Inductive exn : Type := Error (message : jsstring).

Definition message (e : exn) : jsstring := let 'Error m := e in m.

(** A run of a validator: the lines passed to [Logger.error], in order, and
    the exception thrown or the value returned. *)
Definition M (A : Type) : Type := (list jsstring * (exn + A))%type.

Definition ret {A : Type} (x : A) : M A := ([], inr x).
Definition throw {A : Type} (e : exn) : M A := ([], inl e).
Definition Logger_error (line : jsstring) : M unit := ([line], inr tt).

Definition bind {A B : Type} (m : M A) (f : A -> M B) : M B :=
  match m with
  | (l, inl e) => (l, inl e)
  | (l, inr x) => let (l', r) := f x in (l ++ l', r)
  end.

(** [if (c) { body }] followed by the rest of the block. *)
Definition when (c : bool) (body : M unit) : M unit :=
  if c then body else ret tt.

(** [for (const x of xs) { body }] *)
Fixpoint forOf {A : Type} (xs : list A) (body : A -> M unit) : M unit :=
  match xs with
  | [] => ret tt
  | x :: xs' => bind (body x) (fun _ => forOf xs' body)
  end.

Definition logs {A : Type} (m : M A) : list jsstring := fst m.
Definition result {A : Type} (m : M A) : exn + A := snd m.

(** The run throws an [Error] with this message. *)
Definition throws {A : Type} (m : M A) (msg : jsstring) : Prop :=
  result m = inl (Error msg).

(** The run returns normally. *)
Definition returns (m : M unit) : Prop := result m = inr tt.

(** The run throws something. *)
Definition fails {A : Type} (m : M A) : Prop := exists e, result m = inl e.

End Effects.
Import Effects.

Declare Scope js_scope.
Notation "x <- m ;; k" := (bind m (fun x => k))
  (at level 61, m at next level, right associativity) : js_scope.
Notation "m ;; k" := (bind m (fun _ => k))
  (at level 61, right associativity) : js_scope.
Local Open Scope js_scope.


(* ================================================================= *)
(** ** src/utils/security-validation.ts *)

Module Validation.

Definition ch (a : ascii) : N := N_of_ascii a.

Definition ALLOWED_FIGMA_DOMAINS : list jsstring :=
  [ lit "api.figma.com";
    lit "figma.com";
    lit "s3-alpha-sig.figma.com";
    lit "s3-alpha.figma.com" ].

Definition MAX_URL_LENGTH : N := 2048.
Definition MAX_HEADER_KEY_LENGTH : N := 256.
Definition MAX_HEADER_VALUE_LENGTH : N := 8192.

(** The two properties of a platform [URL] object that the validator reads. *)
Record URL : Type := { protocol : jsstring; hostname : jsstring }.

(** [\s] *)
Definition ws : N -> bool := isWhiteSpace.

(** *** validateUrl *)

(** The character class of line 39: the code units
    [; & | ` $ ( ) { } [ ] \ ' \x22 < >]. *)
Definition dangerousChars : regex :=
  Cls (oneOf (lit ";&|`$(){}[]\'" ++ [DQ] ++ lit "<>")).

Section ValidateUrl.

(** [new URL(url)] of the platform: [None] when the constructor throws. *)
Variable URL_new : jsstring -> option URL.

Definition validateUrl (url : jsstring) : M unit :=
  when (falsy url)
    (throw (Error (lit "URL must be a non-empty string"))) ;;
  when (MAX_URL_LENGTH <? length url)
    (throw (Error (lit "URL exceeds maximum length of "
                     ++ digitsOf MAX_URL_LENGTH ++ lit " characters"))) ;;
  parsedUrl <- match URL_new url with
               | Some u => ret u
               | None => throw (Error (lit "Invalid URL format"))
               end ;;
  when (negb (includes [lit "https:"; lit "http:"] (protocol parsedUrl)))
    (throw (Error (lit "Only HTTP and HTTPS URLs are allowed"))) ;;
  when (test dangerousChars url)
    (Logger_error (lit "[Security] Blocked URL with dangerous characters: "
                     ++ substring0 100 url ++ lit "...") ;;
     throw (Error (lit "URL contains potentially dangerous characters"))) ;;
  let hostname := toLowerCase (hostname parsedUrl) in
  let isAllowedDomain :=
    existsb (fun domain =>
               JS.eqb hostname domain || endsWith hostname (lit "." ++ domain))
            ALLOWED_FIGMA_DOMAINS in
  when (negb isAllowedDomain)
    (Logger_error (lit "[Security] Blocked URL to unauthorized domain: "
                     ++ hostname) ;;
     throw (Error (lit "URL domain '" ++ hostname
                     ++ lit "' is not in the allowed list"))).

End ValidateUrl.

(** *** validateHeaders *)

(** [Record<string, string>], as the sequence [Object.entries] yields. *)
Definition Headers : Type := list (jsstring * jsstring).

Definition Object_entries (headers : Headers) : list (jsstring * jsstring) :=
  headers.

(** Line 83: [; & | ` $ ( ) { } [ ] \ ' \x22 < > \n \r]. *)
Definition dangerousKeyChars : regex :=
  Cls (oneOf (lit ";&|`$(){}[]\'" ++ [DQ] ++ lit "<>" ++ [10; 13])).

(** Line 90: [` $ ( ) { } [ ] \ < > \n \r]. *)
Definition dangerousValueChars : regex :=
  Cls (oneOf (lit "`$(){}[]\<>" ++ [10; 13])).

Definition identStart : N -> bool :=
  orCls (range (ch "a") (ch "z")) (orCls (range (ch "A") (ch "Z")) (oneOf (lit "_"))).

Definition identPart : N -> bool :=
  orCls identStart (range (ch "0") (ch "9")).

Definition notDQ : N -> bool := noneOf [DQ].

(** Line 100: [;\s*[a-zA-Z_][a-zA-Z0-9_]*\s*=] *)
Definition variableAssignment : regex :=
  Cat [Chr (ch ";"); StarCls ws; Cls identStart; StarCls identPart;
       StarCls ws; Chr (ch "=")].

(** The lookahead body of lines 101 and 102: [[^\x22]*\x22[^\x22]*$] *)
Definition oneQuoteToEnd : regex :=
  Cat [StarCls notDQ; Chr DQ; StarCls notDQ; Eos].

(** Line 101: [&&(?![^\x22]*\x22[^\x22]*$)] *)
Definition andChain : regex :=
  Cat [Chr (ch "&"); Chr (ch "&"); NegLook oneQuoteToEnd].

(** Line 102: [\|\|(?![^\x22]*\x22[^\x22]*$)] *)
Definition orChain : regex :=
  Cat [Chr (ch "|"); Chr (ch "|"); NegLook oneQuoteToEnd].

(** Line 103: [\$\(|\$\{] *)
Definition commandSubstitution : regex :=
  Alt (Lit (lit "$(")) (Lit (lit "${")).

Definition injectionPatterns : list regex :=
  [variableAssignment; andChain; orChain; commandSubstitution].

(** The body of the loop over the entries (lines 64 to 113). *)
Definition validateEntry (entry : jsstring * jsstring) : M unit :=
  let (key, value) := entry in
  when (falsy key)
    (throw (Error (lit "Header key must be a non-empty string"))) ;;
  when (falsy value)
    (throw (Error (lit "Header value must be a non-empty string"))) ;;
  when (MAX_HEADER_KEY_LENGTH <? length key)
    (throw (Error (lit "Header key exceeds maximum length of "
                     ++ digitsOf MAX_HEADER_KEY_LENGTH ++ lit " characters"))) ;;
  when (MAX_HEADER_VALUE_LENGTH <? length value)
    (throw (Error (lit "Header value exceeds maximum length of "
                     ++ digitsOf MAX_HEADER_VALUE_LENGTH ++ lit " characters"))) ;;
  when (test dangerousKeyChars key)
    (Logger_error (lit "[Security] Blocked header key with dangerous characters: "
                     ++ key) ;;
     throw (Error (lit "Header key contains potentially dangerous characters"))) ;;
  when (test dangerousValueChars value)
    (Logger_error (lit "[Security] Blocked header value with dangerous characters: "
                     ++ substring0 50 value ++ lit "...") ;;
     throw (Error (lit "Header value contains potentially dangerous characters"))) ;;
  forOf injectionPatterns (fun pattern =>
    when (test pattern value)
      (Logger_error (lit "[Security] Blocked header value with injection pattern: "
                       ++ substring0 50 value ++ lit "...") ;;
       throw (Error (lit "Header value contains potential injection pattern")))).

(** [headers] is [undefined] ([None]) or an object. *)
Definition validateHeaders (headers : option Headers) : M unit :=
  match headers with
  | None => ret tt
  | Some h => forOf (Object_entries h) validateEntry
  end.

(** *** validateCurlCommand *)

Definition notQuote : N -> bool := noneOf [ch "'"; DQ].

(** Lines 132 to 137. *)
Definition dangerousPatterns : list regex :=
  [ (* ;\s*[^'\x22] *)
    Cat [Chr (ch ";"); StarCls ws; Cls notQuote];
    (* \|\s*[^'\x22] *)
    Cat [Chr (ch "|"); StarCls ws; Cls notQuote];
    (* &&\s*[^'\x22] *)
    Cat [Chr (ch "&"); Chr (ch "&"); StarCls ws; Cls notQuote];
    (* \|\|\s*[^'\x22] *)
    Cat [Chr (ch "|"); Chr (ch "|"); StarCls ws; Cls notQuote];
    (* `[^`]*` *)
    Cat [Chr (ch "`"); StarCls (noneOf [ch "`"]); Chr (ch "`")];
    (* \$\([^)]*\) *)
    Cat [Chr (ch "$"); Chr (ch "("); StarCls (noneOf [ch ")"]); Chr (ch ")")] ].

Definition validateCurlCommand (command : jsstring) : M unit :=
  when (falsy command)
    (throw (Error (lit "Command must be a non-empty string"))) ;;
  when (negb (startsWith (trim command) (lit "curl ")))
    (throw (Error (lit "Command must start with curl"))) ;;
  forOf dangerousPatterns (fun pattern =>
    when (test pattern command)
      (Logger_error (lit "[Security] Blocked curl command with dangerous pattern: "
                       ++ substring0 100 command ++ lit "...") ;;
       throw (Error (lit "Curl command contains potentially dangerous patterns")))).

End Validation.
Import Validation.

(* ================================================================= *)
(** ** A model of the platform URL parser

    [validateUrl] is verified for every behaviour of [new URL]; the
    concrete instances below need one parser to run.  [URL_new] follows the
    WHATWG algorithm on the inputs the repository's tests exercise: scheme,
    authority of a special scheme, credentials, port, forbidden host code
    points and ASCII lower-casing of the host.  Percent-decoding and IDNA
    of the host, numeric IPv4 hosts and IPv6 literals are outside the
    model; a port is only checked to be made of digits, not to be below
    65536; a URL of a scheme that is not special is never refused.  It is
    used at inputs where it agrees with the platform. *)

Module Platform.

Definition isAlpha (c : N) : bool := range 65 90 c || range 97 122 c.
Definition isDigit (c : N) : bool := range 48 57 c.
Definition isSchemeUnit (c : N) : bool :=
  isAlpha c || isDigit c || oneOf (lit "+-.") c.

(** Splits at the first code unit satisfying [p]. *)
Fixpoint break (p : N -> bool) (s : jsstring) : jsstring * jsstring :=
  match s with
  | [] => ([], [])
  | c :: s' => if p c then ([], s)
               else let (a, b) := break p s' in (c :: a, b)
  end.

Fixpoint dropWhile (p : N -> bool) (s : jsstring) : jsstring :=
  match s with
  | c :: s' => if p c then dropWhile p s' else s
  | [] => []
  end.

(** The part after the last code unit equal to [c], or all of [s]. *)
Definition afterLast (c : N) (s : jsstring) : jsstring :=
  rev (fst (break (N.eqb c) (rev s))).

Definition isC0OrSpace (c : N) : bool := c <=? 32.
Definition isTabOrNewline (c : N) : bool := oneOf [9; 10; 13] c.

Definition forbiddenHostUnit (c : N) : bool :=
  (c <=? 32) || (c =? 127) || (127 <? c)
  || oneOf (lit "#/:<>?@[\]^|%" ++ [DQ]) c.

Definition specialSchemes : list jsstring :=
  [lit "http"; lit "https"; lit "ftp"; lit "ws"; lit "wss"].

Definition parseScheme (s : jsstring) : option (jsstring * jsstring) :=
  match s with
  | c :: _ =>
      if isAlpha c then
        match break (fun x => negb (isSchemeUnit x)) s with
        | (scheme, x :: rest) =>
            if x =? ch ":" then Some (toLowerCase scheme, rest) else None
        | (_, []) => None
        end
      else None
  | [] => None
  end.

Definition parseAuthority (rest : jsstring) : option jsstring :=
  let afterSlashes := dropWhile (oneOf (lit "/\")) rest in
  let authority := fst (break (oneOf (lit "/\?#")) afterSlashes) in
  let hostport := afterLast (ch "@") authority in
  let (host, port) := break (N.eqb (ch ":")) hostport in
  if falsy host then None
  else if existsb forbiddenHostUnit host then None
  else if negb (forallb isDigit (tl port)) then None
  else Some (toLowerCase host).

Definition URL_new (input : jsstring) : option URL :=
  let trimmed := rev (dropWhile isC0OrSpace (rev (dropWhile isC0OrSpace input))) in
  let cleaned := filter (fun c => negb (isTabOrNewline c)) trimmed in
  match parseScheme cleaned with
  | None => None
  | Some (scheme, rest) =>
      let protocol := scheme ++ lit ":" in
      if includes specialSchemes scheme then
        match parseAuthority rest with
        | Some host => Some {| protocol := protocol; hostname := host |}
        | None => None
        end
      else Some {| protocol := protocol; hostname := [] |}
  end.

End Platform.

(* ================================================================= *)
(** ** Vocabulary of the properties *)

Module Props.

(** The code units of the class [dangerousChars]. *)
Definition dangerousSet : jsstring := lit ";&|`$(){}[]\'" ++ [DQ] ++ lit "<>".

(** The string contains a code unit of the dangerous set. *)
Definition hasDangerous (s : jsstring) : Prop :=
  exists c, In c s /\ In c dangerousSet.

(** The host is an allow-listed domain or a sub-label of one. *)
Definition allowedHost (h : jsstring) : Prop :=
  exists d, In d ALLOWED_FIGMA_DOMAINS /\
            (h = d \/ exists sub, h = sub ++ lit "." ++ d).

(** The parsed URL has scheme http or https. *)
Definition isHttp (u : URL) : Prop :=
  protocol u = lit "https:" \/ protocol u = lit "http:".

(** [%XX], the percent-encoding of a code unit below 256, upper-case hex
    as [encodeURIComponent] writes it. *)
Definition hexDigit (d : N) : N :=
  nth (N.to_nat d) (lit "0123456789ABCDEF") (ch "0").

Definition percentEncoded (c : N) : jsstring :=
  [ch "%"; hexDigit (c / 16); hexDigit (c mod 16)].

(** Quoting state of a POSIX shell while it reads a command line. *)
Inductive quoting : Type := Bare | InSingle | InDouble.

(** [bareOccurrence tok q escaped s]: the token [tok] starts somewhere in
    [s] outside single quotes, outside double quotes and not after an
    escaping backslash, when the scan enters [s] in state [q] ([escaped]:
    the previous code unit was an active backslash). *)
Fixpoint bareOccurrence (tok : jsstring) (q : quoting) (escaped : bool)
         (s : jsstring) : bool :=
  match s with
  | [] => false
  | c :: s' =>
      if escaped then bareOccurrence tok q false s'
      else
        match q with
        | Bare =>
            startsWith s tok
            || (if c =? ch "\" then bareOccurrence tok Bare true s'
                else if c =? ch "'" then bareOccurrence tok InSingle false s'
                else if c =? DQ then bareOccurrence tok InDouble false s'
                else bareOccurrence tok Bare false s')
        | InSingle =>
            if c =? ch "'" then bareOccurrence tok Bare false s'
            else bareOccurrence tok InSingle false s'
        | InDouble =>
            if c =? ch "\" then bareOccurrence tok InDouble true s'
            else if c =? DQ then bareOccurrence tok Bare false s'
            else bareOccurrence tok InDouble false s'
        end
  end.

(** The command line contains the separator [tok] unquoted. *)
Definition hasUnquoted (tok command : jsstring) : bool :=
  bareOccurrence tok Bare false command.

(** The shapes the six patterns of [validateCurlCommand] look for: a
    separator, optional white space and a code unit that is not a quote;
    two pipes; two backticks; a dollar-parenthesis that is closed. *)
Inductive flaggedShape : jsstring -> Prop :=
| SeparatorThenUnit (sep pre w post : jsstring) (c : N) :
    In sep [lit ";"; lit "|"; lit "&&"] ->
    forallb ws w = true -> notQuote c = true ->
    flaggedShape (pre ++ sep ++ w ++ c :: post)
| TwoPipes (pre post : jsstring) :
    flaggedShape (pre ++ lit "||" ++ post)
| BacktickPair (pre mid post : jsstring) :
    forallb (noneOf [ch "`"]) mid = true ->
    flaggedShape (pre ++ ch "`" :: mid ++ ch "`" :: post)
| DollarParen (pre mid post : jsstring) :
    forallb (noneOf [ch ")"]) mid = true ->
    flaggedShape (pre ++ lit "$(" ++ mid ++ ch ")" :: post).

(** A key or a value of length 0, a key longer than 256 or a value longer
    than 8192 code units. *)
Definition lengthViolation (key value : jsstring) : Prop :=
  key = [] \/ value = [] \/
  MAX_HEADER_KEY_LENGTH < length key \/ MAX_HEADER_VALUE_LENGTH < length value.

(** The entry passes the loop body of [validateHeaders]. *)
Definition validEntry (entry : jsstring * jsstring) : Prop :=
  returns (validateEntry entry).

(** The shapes the four injection patterns look for in a header value: a
    semicolon, an identifier and an equals sign, with optional white space
    around the identifier; a chaining token after which the value does not
    hold exactly one double quote; the opening of a substitution. *)
Inductive injectionShape : jsstring -> Prop :=
| Assignment (pre w1 id w2 post : jsstring) (c : N) :
    forallb ws w1 = true -> identStart c = true ->
    forallb identPart id = true -> forallb ws w2 = true ->
    injectionShape (pre ++ ch ";" :: w1 ++ c :: id ++ w2 ++ ch "=" :: post)
| Chaining (tok pre post : jsstring) :
    In tok [lit "&&"; lit "||"] ->
    count_occ N.eq_dec post DQ <> 1%nat ->
    injectionShape (pre ++ tok ++ post)
| Substitution (tok pre post : jsstring) :
    In tok [lit "$("; lit "${"] ->
    injectionShape (pre ++ tok ++ post).


End Props.
Import Props.

(* ================================================================= *)
(** ** The retrying fetcher

    [src/utils/fetch-with-retry.ts] is not among the sources; its tests
    are.  The module follows section 4.2 of the specification.  The
    collaborators (native fetch, shell execution) are parameters that
    answer by invocation number, so that a mock which rejects every time
    or a different answer per attempt can be expressed; every call made on
    them is recorded in a trace. *)

Module Fetcher.

(** What a logical call asks of its collaborators, in order: a line for
    the logger, a call of the native fetch, a call of the shell, a backoff
    delay. *)
Inductive event : Type :=
| LogError (line : jsstring)
| FetchCall (url : jsstring) (headers : option Headers)
| ExecCall (command : jsstring)
| Sleep (delay : N).

Definition trace : Type := list event.

Definition isFetchCall (e : event) : bool :=
  match e with FetchCall _ _ => true | _ => false end.

Definition isExecCall (e : event) : bool :=
  match e with ExecCall _ => true | _ => false end.

Definition isLogError (e : event) : bool :=
  match e with LogError _ => true | _ => false end.

(** Number of invocations of the native fetch, of the shell. *)
Definition fetchCalls (tr : trace) : nat := List.length (filter isFetchCall tr).
Definition execCalls (tr : trace) : nat := List.length (filter isExecCall tr).

(** An asynchronous computation: it extends the trace of the call. *)
Definition IO (A : Type) : Type := trace -> A * trace.

Definition io_ret {A : Type} (x : A) : IO A := fun tr => (x, tr).

Definition io_bind {A B : Type} (m : IO A) (f : A -> IO B) : IO B :=
  fun tr => let (x, tr') := m tr in f x tr'.

Definition emit (e : event) : IO unit := fun tr => (tt, tr ++ [e]).

(** A validator run inside the fetcher: its lines reach the logger, its
    verdict comes back. *)
Definition runValidator (m : M unit) : IO (exn + unit) :=
  fun tr => (result m, tr ++ List.map LogError (logs m)).

(** How one attempt ends. *)
Inductive outcome : Type :=
| Success (payload : jsstring)
| Fatal (e : exn)
| Retryable (e : exn).

(** Modelled from the spec: what counts as a failed shell execution in
    section 4.2 step 4, a rejection (spawn failure, non-zero exit) or
    captured stderr content. *)
Definition execError (r : exn + (jsstring * jsstring)) : option exn :=
  match r with
  | inl e => Some e
  | inr (_, stderr) => if falsy stderr then None else Some (Error stderr)
  end.

(** Modelled from the spec: the error a validation failure is surfaced
    as, section 4.2 step 1. *)
Definition securityFailure (e : exn) : exn :=
  Error (lit "Security validation failed: " ++ message e).

(** Modelled from the spec: the quoting of one argument of the fallback
    command line, which [src/utils/fetch-with-retry.ts] assembles.
    Section 4.2 step 3: each header becomes a quoted [-H 'Key: Value']
    token and the URL is quoted as a single token. *)
Definition shellQuote (s : jsstring) : jsstring := lit "'" ++ s ++ lit "'".

(** Modelled from the spec: the assembled command line, [curl], the
    options of the commands in the validator's tests, one quoted [-H]
    token per header in the order of [Object.entries], and the quoted
    URL. *)
Definition assembleCurlCommand (url : jsstring) (headers : option Headers) : jsstring :=
  lit "curl -s -S --fail-with-body -L"
    ++ flat_map (fun entry => lit " -H " ++ shellQuote (fst entry ++ lit ": " ++ snd entry))
                (match headers with Some h => Object_entries h | None => [] end)
    ++ lit " " ++ shellQuote url.

Notation "'await' x <- m ;; k" := (io_bind m (fun x => k))
  (at level 61, x name, m at next level, right associativity).

Section Collaborators.

(** The platform URL parser. *)
Variable URL_new : jsstring -> option URL.

(** Configuration: the maximum number of attempts and the backoff delay
    before the retry that follows attempt [n]. *)
Variable maxAttempts : nat.
Variable backoff : nat -> N.

(** The native fetch collaborator: what its invocation number [n]
    (counted from 0) yields, a transport error or the response payload. *)
Variable nativeFetch : nat -> jsstring -> option Headers -> exn + jsstring.

(** The shell-execution collaborator: what its invocation number [n]
    yields, a failure or the captured stdout and stderr. *)
Variable shellExec : nat -> jsstring -> exn + (jsstring * jsstring).

(** The assembly of the fallback command line. *)
Variable assembleCommand : jsstring -> option Headers -> jsstring.

Definition callFetch (url : jsstring) (headers : option Headers)
  : IO (exn + jsstring) :=
  fun tr => (nativeFetch (fetchCalls tr) url headers,
             tr ++ [FetchCall url headers]).

Definition callExec (command : jsstring) : IO (exn + (jsstring * jsstring)) :=
  fun tr => (shellExec (execCalls tr) command, tr ++ [ExecCall command]).

(** Modelled from the spec: one attempt of [fetchWithRetry], section 4.2
    steps 1 to 4 ([src/utils/fetch-with-retry.ts] is not among the
    sources).  Validate the URL and the headers; try the native fetch; when
    it rejects, assemble the command line, validate it and hand it to the
    shell; a rejection of the shell or captured stderr fails the attempt. *)
Definition attempt (url : jsstring) (headers : option Headers) : IO outcome :=
  await checked <- runValidator (validateUrl URL_new url ;; validateHeaders headers) ;;
  match checked with
  | inl e => io_ret (Fatal (securityFailure e))
  | inr _ =>
      await response <- callFetch url headers ;;
      match response with
      | inr payload => io_ret (Success payload)
      | inl _ =>
          let command := assembleCommand url headers in
          await approved <- runValidator (validateCurlCommand command) ;;
          match approved with
          | inl e => io_ret (Fatal (securityFailure e))
          | inr _ =>
              await captured <- callExec command ;;
              match execError captured with
              | Some e => io_ret (Retryable e)
              | None => io_ret (Success (match captured with
                                         | inr (stdout, _) => stdout
                                         | inl _ => []
                                         end))
              end
          end
      end
  end.

(** Modelled from the spec: the retry loop, section 4.2 steps 5 and 6.  A
    security failure and a success end the call; a transport failure is
    retried after the backoff delay while the budget lasts, and is the
    error of the call when the budget is spent. *)
Fixpoint retry (retriesLeft attemptNo : nat)
         (url : jsstring) (headers : option Headers) : IO (exn + jsstring) :=
  await o <- attempt url headers ;;
  match o with
  | Success payload => io_ret (inr payload)
  | Fatal e => io_ret (inl e)
  | Retryable e =>
      match retriesLeft with
      | O => io_ret (inl e)
      | S n =>
          await _ <- emit (Sleep (backoff attemptNo)) ;;
          retry n (S attemptNo) url headers
      end
  end.

(** Modelled from the spec: [fetchWithRetry(url, {headers})], with a
    budget of [maxAttempts] attempts (a budget of 0 is read as 1). *)
Definition fetchWithRetry (url : jsstring) (headers : option Headers)
  : IO (exn + jsstring) :=
  retry (maxAttempts - 1) 1 url headers.

End Collaborators.

End Fetcher.

(* ================================================================= *)
(** ** Concrete inputs and collaborators *)

Module Examples.

(** An overlong input: 2049 times the letter a, which no parser accepts as
    a URL. *)
Definition overlong : jsstring := repeat (ch "a") 2049.

(** The escapes of [;] and of [$(] in path and query. *)
Definition escapedUrl : jsstring :=
  lit "https://api.figma.com/v1/files/a" ++ percentEncoded (ch ";")
    ++ lit "b?q=" ++ percentEncoded (ch "$") ++ percentEncoded (ch "(")
    ++ lit "id".

(** A command with an output redirection. *)
Definition redirected : jsstring := lit "curl https://api.figma.com/x > /tmp/out".

(** A command whose separator is directly followed by a quoted command
    name. *)
Definition separatorBeforeQuote : jsstring :=
  lit "curl https://api.figma.com/x;" ++ [DQ] ++ lit "rm" ++ [DQ] ++ lit " -rf /".

(** The mock of the fetcher's tests: the native fetch rejects every time. *)
Definition fetchAlwaysRejects (n : nat) (url : jsstring) (headers : option Headers)
  : exn + jsstring :=
  inl (Error (lit "Fetch failed")).

(** A shell that fails every time, with the number of the call in its
    error. *)
Definition execAlwaysFails (n : nat) (command : jsstring)
  : exn + (jsstring * jsstring) :=
  inl (Error (lit "curl failed, call " ++ digitsOf (N.of_nat n))).

(** A backoff schedule: one second more after each attempt. *)
Definition linearBackoff (attemptNo : nat) : N := 1000 * N.of_nat attemptNo.

(** The valid request of the fetcher's tests. *)
Definition validUrl : jsstring := lit "https://api.figma.com/v1/files/valid".

Definition validHeaders : option Headers :=
  Some [(lit "Authorization", lit "Bearer fig_token_123");
        (lit "X-Figma-Token", lit "valid_token");
        (lit "Content-Type", lit "application/json")].

(** A header map that passes [validateHeaders] and whose value holds a
    semicolon. *)
Definition semicolonHeaders : option Headers :=
  Some [(lit "Accept", lit "text/html;level")].

(** The first malicious URL of the fetcher's tests. *)
Definition maliciousUrl : jsstring :=
  lit "https://api.figma.com/files/abc; rm -rf /".

End Examples.
Import Examples.

(* ================================================================= *)
(** ** Vocabulary of the further properties *)

Module Coverage.

(** The code units of the class [dangerousKeyChars]. *)
Definition dangerousKeySet : jsstring :=
  lit ";&|`$(){}[]\'" ++ [DQ] ++ lit "<>" ++ [10; 13].

(** The code units of the class [dangerousValueChars]. *)
Definition dangerousValueSet : jsstring := lit "`$(){}[]\<>" ++ [10; 13].

(** No code unit of [s] is in [set]. *)
Definition avoids (set s : jsstring) : Prop :=
  forall c, In c s -> ~ In c set.

(** The conditions the loop body of [validateHeaders] puts on an entry. *)
Definition wellFormedEntry (entry : jsstring * jsstring) : Prop :=
  let (key, value) := entry in
  key <> [] /\ value <> [] /\
  length key <= 256 /\ length value <= 8192 /\
  avoids dangerousKeySet key /\ avoids dangerousValueSet value /\
  ~ injectionShape value.

(** The first lines of the three security log messages whose payload is
    truncated. *)
Definition urlLogPrefix : jsstring :=
  lit "[Security] Blocked URL with dangerous characters: ".
Definition valueLogPrefix : jsstring :=
  lit "[Security] Blocked header value with dangerous characters: ".
Definition commandLogPrefix : jsstring :=
  lit "[Security] Blocked curl command with dangerous pattern: ".

(** The code units the six patterns of [validateCurlCommand] begin with. *)
Definition patternHeads : jsstring := lit ";|&`$".

(** The code units the four injection patterns begin with. *)
Definition injectionHeads : jsstring := lit ";&|$".

(** The string holds a code unit that is not white space. *)
Definition hasInk (s : jsstring) : Prop :=
  exists c, In c s /\ isWhiteSpace c = false.

End Coverage.
Import Coverage.

(* ================================================================= *)
(** ** Facts about strings *)

Module JSFacts.

Lemma eqb_refl (a : jsstring) : eqb a a = true.
Proof.
  induction a as [|x a IH]; simpl; [reflexivity|].
  now rewrite N.eqb_refl, IH.
Qed.

Lemma eqb_eq (a b : jsstring) : eqb a b = true <-> a = b.
Proof.
  split.
  - revert b; induction a as [|x a IH]; intros [|y b]; simpl; try discriminate; auto.
    intros H. apply andb_true_iff in H as [Hx Hab].
    apply N.eqb_eq in Hx. f_equal; auto.
  - intros ->. apply eqb_refl.
Qed.

Lemma startsWith_app (p t : jsstring) : startsWith (p ++ t) p = true.
Proof.
  induction p as [|y p IH]; simpl; [reflexivity|].
  now rewrite N.eqb_refl, IH.
Qed.

Lemma startsWith_inv (s p : jsstring) :
  startsWith s p = true -> exists t, s = p ++ t.
Proof.
  revert s; induction p as [|y p IH]; intros s H; simpl in *.
  - now exists s.
  - destruct s as [|x s]; [discriminate|].
    apply andb_true_iff in H as [Hx Hs]. apply N.eqb_eq in Hx. subst y.
    destruct (IH _ Hs) as [t ->]. now exists t.
Qed.

Lemma endsWith_spec (s p : jsstring) :
  endsWith s p = true <-> exists t, s = t ++ p.
Proof.
  unfold endsWith. split.
  - intros H. apply startsWith_inv in H as [t Ht].
    exists (rev t). rewrite <- (rev_involutive s), Ht, rev_app_distr.
    now rewrite rev_involutive.
  - intros [t ->]. rewrite rev_app_distr. apply startsWith_app.
Qed.

End JSFacts.
Import JSFacts.

(* ================================================================= *)
(** ** Facts about the matcher *)

Module RegexFacts.

(** *** The matcher computes the declarative reading *)

Lemma starCls_spec (p : N -> bool) (s : jsstring) (k : jsstring -> bool) :
  starCls p s k = true <->
  exists m rest, s = m ++ rest /\ forallb p m = true /\ k rest = true.
Proof.
  induction s as [|c s IH]; simpl.
  - split.
    + intros H. now exists [], [].
    + intros (m & rest & E & _ & Hk).
      symmetry in E. apply app_eq_nil in E as [-> ->]. exact Hk.
  - destruct (p c) eqn:Hc.
    + rewrite orb_true_iff, IH. split.
      * intros [(m & rest & -> & Hm & Hk) | Hk].
        -- exists (c :: m), rest. simpl. now rewrite Hc, Hm.
        -- now exists [], (c :: s).
      * intros (m & rest & E & Hm & Hk). destruct m as [|x m]; simpl in E.
        -- right. now subst rest.
        -- left. injection E as -> ->. simpl in Hm.
           apply andb_true_iff in Hm as [_ Hm]. now exists m, rest.
    + split.
      * intros Hk. now exists [], (c :: s).
      * intros (m & rest & E & Hm & Hk). destruct m as [|x m]; simpl in E.
        -- now subst rest.
        -- injection E as -> ->. simpl in Hm. rewrite Hc in Hm. discriminate.
Qed.

Lemma rmatch_spec (r : regex) :
  forall (s : jsstring) (k : jsstring -> bool),
    rmatch r s k = true <->
    exists m rest, s = m ++ rest /\ Matches r m rest /\ k rest = true.
Proof.
  induction r as [|c|p|a IHa b IHb|a IHa b IHb|p|a IHa|]; intros s k; simpl.
  - split.
    + intros H. now exists [], s.
    + now intros (m & rest & -> & -> & Hk).
  - destruct s as [|x s].
    + split; [discriminate|]. now intros (m & rest & E & -> & _).
    + rewrite andb_true_iff, N.eqb_eq. split.
      * intros [-> Hk]. now exists [c], s.
      * intros (m & rest & E & -> & Hk). simpl in E. now injection E as -> ->.
  - destruct s as [|x s].
    + split; [discriminate|]. now intros (m & rest & E & (c & -> & _) & _).
    + rewrite andb_true_iff. split.
      * intros [Hp Hk]. exists [x], s. repeat split; eauto.
      * intros (m & rest & E & (c & -> & Hp) & Hk). simpl in E.
        now injection E as -> ->.
  - rewrite IHa. split.
    + intros (m1 & r1 & -> & Ha & Hb). apply IHb in Hb as (m2 & rest & -> & Hb & Hk).
      exists (m1 ++ m2), rest. rewrite <- app_assoc. repeat split; eauto.
    + intros (m & rest & -> & (m1 & m2 & -> & Ha & Hb) & Hk).
      exists m1, (m2 ++ rest). rewrite <- app_assoc. repeat split; auto.
      apply IHb. now exists m2, rest.
  - rewrite orb_true_iff, IHa, IHb. split.
    + intros [(m & rest & E & H & Hk) | (m & rest & E & H & Hk)];
        exists m, rest; auto.
    + intros (m & rest & E & [H|H] & Hk); [left|right]; now exists m, rest.
  - apply starCls_spec.
  - rewrite andb_true_iff, negb_true_iff. split.
    + intros [Hn Hk]. exists [], s. repeat split; auto.
      intros (m' & rest' & E & Ha).
      assert (rmatch a s (fun _ => true) = true) as Ht
          by (apply IHa; now exists m', rest').
      congruence.
    + intros (m & rest & -> & (-> & Hn) & Hk). simpl. split; [|exact Hk].
      destruct (rmatch a rest (fun _ => true)) eqn:Ht; [|reflexivity].
      exfalso. apply Hn. apply IHa in Ht as (m' & rest' & E & Ha & _).
      now exists m', rest'.
  - destruct s as [|x s].
    + split.
      * intros Hk. now exists [], [].
      * now intros (m & rest & E & (-> & ->) & Hk).
    + split; [discriminate|]. now intros (m & rest & E & (-> & ->) & Hk).
Qed.

Lemma matchesAt_spec (r : regex) (s : jsstring) :
  matchesAt r s = true <-> exists m rest, s = m ++ rest /\ Matches r m rest.
Proof.
  unfold matchesAt. rewrite rmatch_spec. split.
  - intros (m & rest & E & H & _). now exists m, rest.
  - intros (m & rest & E & H). now exists m, rest.
Qed.

(** [test] succeeds exactly when some substring is matched. *)
Lemma test_spec (r : regex) (s : jsstring) :
  test r s = true <->
  exists pre m post, s = pre ++ m ++ post /\ Matches r m post.
Proof.
  induction s as [|c s IH]; simpl; rewrite orb_true_iff, matchesAt_spec.
  - split.
    + intros [(m & rest & E & H) | F]; [|discriminate]. now exists [], m, rest.
    + intros (pre & m & post & E & H). left.
      destruct pre; [|discriminate]. now exists m, post.
  - rewrite IH. split.
    + intros [(m & rest & E & H) | (pre & m & post & -> & H)].
      * now exists [], m, rest.
      * now exists (c :: pre), m, post.
    + intros (pre & m & post & E & H). destruct pre as [|x pre]; simpl in E.
      * left. now exists m, post.
      * right. injection E as -> ->. now exists pre, m, post.
Qed.

(** A single character class matches when some code unit is in the class. *)
Lemma test_Cls (p : N -> bool) (s : jsstring) :
  test (Cls p) s = existsb p s.
Proof.
  induction s as [|c s IH]; simpl; [reflexivity|].
  unfold matchesAt; simpl. now rewrite andb_true_r, IH.
Qed.

End RegexFacts.
Import RegexFacts.

(* ================================================================= *)
(** ** Laws of the effects *)

Section EffectLaws.
Context {A B : Type}.

Lemma result_bind (m : M A) (f : A -> M B) :
  result (bind m f) =
  match result m with inl e => inl e | inr x => result (f x) end.
Proof.
  destruct m as [l [e|x]]; simpl; [reflexivity|].
  now destruct (f x).
Qed.

Lemma logs_bind (m : M A) (f : A -> M B) :
  logs (bind m f) =
  match result m with inl _ => logs m | inr x => logs m ++ logs (f x) end.
Proof.
  destruct m as [l [e|x]]; simpl; [reflexivity|].
  now destruct (f x).
Qed.

Lemma result_throw (e : exn) : result (throw e : M A) = inl e.
Proof. reflexivity. Qed.

Lemma result_ret (x : A) : result (ret x) = inr x.
Proof. reflexivity. Qed.
End EffectLaws.

Lemma result_when_cases (c : bool) (body : M unit) :
  result (when c body) = if c then result body else inr tt.
Proof. now destruct c. Qed.

Section LoopLaws.
Context {A : Type}.

Lemma result_forOf_cons (x : A) (xs : list A) (body : A -> M unit) :
  result (forOf (x :: xs) body) =
  match result (body x) with
  | inl e => inl e
  | inr _ => result (forOf xs body)
  end.
Proof. cbn [forOf]. now rewrite result_bind. Qed.

(** The loop stops at the first element whose body throws. *)
Lemma result_forOf_first (pre post : list A) (x : A) (body : A -> M unit) :
  Forall (fun y => result (body y) = inr tt) pre ->
  result (forOf (pre ++ x :: post) body) =
  match result (body x) with
  | inl e => inl e
  | inr _ => result (forOf post body)
  end.
Proof.
  induction 1 as [|y pre Hy _ IH]; cbn [app].
  - apply result_forOf_cons.
  - now rewrite result_forOf_cons, Hy.
Qed.

(** A loop over a list with an element whose body throws, throws. *)
Lemma forOf_fails (xs : list A) (x : A) (body : A -> M unit) :
  In x xs -> fails (body x) -> fails (forOf xs body).
Proof.
  intros Hin [e He]. unfold fails.
  induction xs as [|y xs IH]; [contradiction|].
  rewrite result_forOf_cons. destruct Hin as [->|Hin].
  - rewrite He. eauto.
  - destruct (result (body y)) as [e'|[]]; eauto.
Qed.

(** A loop whose body is a guarded log-and-throw. *)
Lemma result_forOf_guard (xs : list A) (c : A -> bool)
      (line : A -> jsstring) (e : exn) :
  result (forOf xs (fun x => when (c x) (Logger_error (line x) ;; throw e))) =
  if existsb c xs then inl e else inr tt.
Proof.
  induction xs as [|x xs IH]; [reflexivity|].
  rewrite result_forOf_cons, result_when_cases. cbn [existsb].
  destruct (c x); [reflexivity|exact IH].
Qed.

End LoopLaws.

Lemma result_log_throw (A : Type) (line : jsstring) (e : exn) :
  result (Logger_error line ;; (throw e : M A)) = inl e.
Proof. reflexivity. Qed.

Lemma returns_not_throws (m : M unit) (msg : jsstring) :
  returns m -> ~ throws m msg.
Proof. unfold returns, throws. congruence. Qed.

Lemma fails_not_returns (m : M unit) : fails m -> ~ returns m.
Proof. unfold returns. intros [e He]. congruence. Qed.

(* ================================================================= *)
(** ** Stepping through a validator *)

(** A guard that does not fire lets the rest of the block decide. *)
Lemma result_guard_skip (c : bool) (body rest : M unit) :
  c = false -> result (when c body ;; rest) = result rest.
Proof. intros ->. now rewrite result_bind. Qed.

(** A guard that fires and throws decides the block. *)
Lemma result_guard_throw (c : bool) (e : exn) (rest : M unit) :
  c = true -> result (when c (throw e) ;; rest) = inl e.
Proof. intros ->. now rewrite result_bind. Qed.

(** The same for a guard that logs before it throws. *)
Lemma result_guard_log_throw (c : bool) (line : jsstring) (e : exn) (rest : M unit) :
  c = true -> result (when c (Logger_error line ;; throw e) ;; rest) = inl e.
Proof. intros ->. now rewrite result_bind. Qed.

Lemma falsy_false (s : jsstring) : s <> [] -> falsy s = false.
Proof. now destruct s. Qed.

Lemma falsy_true (s : jsstring) : falsy s = true <-> s = [].
Proof. destruct s; simpl; split; congruence. Qed.

Lemma length_pos_nonempty (s : jsstring) (n : N) : n < length s -> s <> [].
Proof. intros H ->. unfold length in H. simpl in H. lia. Qed.

Lemma test_oneOf (cs s : jsstring) :
  test (Cls (oneOf cs)) s = true <-> exists c, In c s /\ In c cs.
Proof.
  rewrite test_Cls, existsb_exists. unfold oneOf.
  split; intros (c & Hs & Hc); exists c; split; auto.
  - apply existsb_exists in Hc as (d & Hd & E). apply N.eqb_eq in E. now subst.
  - apply existsb_exists. exists c. split; auto. apply N.eqb_refl.
Qed.

Lemma test_oneOf_false (cs s : jsstring) :
  test (Cls (oneOf cs)) s = false <-> forall c, In c s -> ~ In c cs.
Proof.
  rewrite <- not_true_iff_false, test_oneOf. split.
  - intros H c Hs Hc. apply H. now exists c.
  - intros H (c & Hs & Hc). exact (H c Hs Hc).
Qed.

(* ================================================================= *)
(** ** validateUrl *)

Module UrlFacts.

Lemma dangerousChars_spec (s : jsstring) :
  test dangerousChars s = true <-> hasDangerous s.
Proof. apply test_oneOf. Qed.

Lemma isHttp_spec (u : URL) :
  includes [lit "https:"; lit "http:"] (protocol u) = true <-> isHttp u.
Proof.
  unfold includes, isHttp. cbn [existsb]. rewrite orb_false_r, orb_true_iff, !eqb_eq.
  reflexivity.
Qed.

Lemma isAllowedDomain_spec (h : jsstring) :
  existsb (fun domain => JS.eqb h domain || endsWith h (lit "." ++ domain))
          ALLOWED_FIGMA_DOMAINS = true <-> allowedHost h.
Proof.
  unfold allowedHost. rewrite existsb_exists. split.
  - intros (d & Hd & H). exists d. split; [exact Hd|].
    apply orb_true_iff in H as [H|H].
    + left. now apply eqb_eq.
    + right. now apply endsWith_spec.
  - intros (d & Hd & H). exists d. split; [exact Hd|].
    apply orb_true_iff. destruct H as [H|H].
    + left. now apply eqb_eq.
    + right. now apply endsWith_spec.
Qed.

Section Parser.

Variable URL_new : jsstring -> option URL.

(** Everything after the length check, for an input that passed it. *)
Lemma validateUrl_after_parse (url : jsstring) :
  url <> [] -> length url <= MAX_URL_LENGTH ->
  result (validateUrl URL_new url) =
  match URL_new url with
  | None => inl (Error (lit "Invalid URL format"))
  | Some u =>
      if negb (includes [lit "https:"; lit "http:"] (protocol u))
      then inl (Error (lit "Only HTTP and HTTPS URLs are allowed"))
      else if test dangerousChars url
      then inl (Error (lit "URL contains potentially dangerous characters"))
      else
        let h := toLowerCase (hostname u) in
        if existsb (fun domain => JS.eqb h domain || endsWith h (lit "." ++ domain))
                   ALLOWED_FIGMA_DOMAINS
        then inr tt
        else inl (Error (lit "URL domain '" ++ h ++ lit "' is not in the allowed list"))
  end.
Proof.
  intros Hne Hlen. unfold validateUrl.
  rewrite result_guard_skip by now apply falsy_false.
  rewrite result_guard_skip by now apply N.ltb_ge.
  rewrite result_bind. destruct (URL_new url) as [u|]; [|reflexivity].
  cbn [result ret snd].
  destruct (negb (includes _ (protocol u))) eqn:Hp.
  { now rewrite result_guard_throw. }
  rewrite result_guard_skip by reflexivity.
  destruct (test dangerousChars url) eqn:Hd.
  { now rewrite result_guard_log_throw. }
  rewrite result_guard_skip by reflexivity.
  cbv zeta. rewrite result_when_cases.
  now destruct (existsb _ ALLOWED_FIGMA_DOMAINS).
Qed.

(** The length check decides for every input above the ceiling. *)
Lemma validateUrl_too_long (url : jsstring) :
  MAX_URL_LENGTH < length url ->
  result (validateUrl URL_new url) =
  inl (Error (lit "URL exceeds maximum length of 2048 characters")).
Proof.
  intros Hlen. unfold validateUrl.
  rewrite result_guard_skip
    by (apply falsy_false; exact (length_pos_nonempty _ _ Hlen)).
  rewrite result_guard_throw by (now apply N.ltb_lt).
  reflexivity.
Qed.

End Parser.

End UrlFacts.
Import UrlFacts.

(* ================================================================= *)
(** ** Claims about validateUrl *)

(** C8. Every string longer than 2048 code units is rejected with the
    message [URL exceeds maximum length of 2048 characters], whatever it
    contains and whatever the platform parser would say about it: the
    ceiling is checked before [new URL] is called. *)
Theorem validateUrl_length_ceiling
  (URL_new : jsstring -> option URL) (url : jsstring) :
  2048 < length url ->
  throws (validateUrl URL_new url)
         (lit "URL exceeds maximum length of 2048 characters").
Proof.
  intros Hlen. unfold throws, validateUrl.
  assert (Hne : url <> []) by exact (length_pos_nonempty url 2048 Hlen).
  rewrite result_guard_skip by (now apply falsy_false).
  rewrite result_guard_throw by (now apply N.ltb_lt).
  reflexivity.
Qed.

Lemma validateUrl_length_ceiling_witness :
  2048 < length overlong /\
  Platform.URL_new overlong = None /\
  throws (validateUrl Platform.URL_new overlong)
         (lit "URL exceeds maximum length of 2048 characters").
Proof.
  assert (H : 2048 < length overlong) by (vm_compute; reflexivity).
  split; [exact H|]. split; [vm_compute; reflexivity|].
  exact (validateUrl_length_ceiling Platform.URL_new overlong H).
Defined.

(** C2, as stated, fails: the character check is the fifth check, so a
    string with a dangerous character that is not an http(s) URL gets the
    message of an earlier check.  The input is the one of the repository's
    test of non-HTTP protocols. *)
Lemma validateUrl_dangerous_not_first :
  hasDangerous (lit "javascript:alert(1)") /\
  throws (validateUrl Platform.URL_new (lit "javascript:alert(1)"))
         (lit "Only HTTP and HTTPS URLs are allowed") /\
  ~ throws (validateUrl Platform.URL_new (lit "javascript:alert(1)"))
           (lit "URL contains potentially dangerous characters").
Proof.
  split; [|split].
  - exists (ch "("). split; vm_compute; tauto.
  - vm_compute. reflexivity.
  - vm_compute. discriminate.
Qed.

(** C2, amended.  A string containing a dangerous character is always
    rejected; the message is [URL contains potentially dangerous characters]
    when the string has at most 2048 code units and parses as an http or
    https URL, whatever else the URL is (the check reads the raw string). *)
Theorem validateUrl_dangerous_characters
  (URL_new : jsstring -> option URL) (url : jsstring) :
  hasDangerous url ->
  fails (validateUrl URL_new url) /\
  (forall u, length url <= 2048 -> URL_new url = Some u -> isHttp u ->
     throws (validateUrl URL_new url)
            (lit "URL contains potentially dangerous characters")).
Proof.
  intros Hd.
  assert (Hne : url <> []) by (destruct Hd as (c & Hin & _); now destruct url).
  split.
  - destruct (N.ltb_spec 2048 (length url)) as [Hlong|Hshort].
    + eexists. exact (validateUrl_too_long URL_new url Hlong).
    + unfold fails. rewrite validateUrl_after_parse by assumption.
      destruct (URL_new url) as [u|]; [|eauto].
      destruct (negb _); [eauto|].
      apply dangerousChars_spec in Hd. rewrite Hd. eauto.
  - intros u Hlen Hu Hhttp. unfold throws.
    rewrite validateUrl_after_parse, Hu by assumption.
    apply isHttp_spec in Hhttp. rewrite Hhttp. cbn [negb].
    apply dangerousChars_spec in Hd. now rewrite Hd.
Qed.

Lemma validateUrl_dangerous_characters_witness :
  hasDangerous (lit "https://api.figma.com/files/abc; rm -rf /") /\
  throws (validateUrl Platform.URL_new
            (lit "https://api.figma.com/files/abc; rm -rf /"))
         (lit "URL contains potentially dangerous characters").
Proof.
  assert (H : hasDangerous (lit "https://api.figma.com/files/abc; rm -rf /"))
    by (exists (ch ";"); split; vm_compute; tauto).
  split; [exact H|].
  refine (proj2 (validateUrl_dangerous_characters Platform.URL_new _ H)
                {| protocol := lit "https:"; hostname := lit "api.figma.com" |}
                _ _ _).
  - vm_compute. discriminate.
  - vm_compute. reflexivity.
  - left. reflexivity.
Defined.

(** C4. For a non-empty string of at most 2048 code units that parses as an
    http or https URL and has no dangerous character, [validateUrl] returns
    normally exactly when the lower-cased hostname is an allow-listed
    domain or ends with a dot followed by one; otherwise it throws
    [URL domain '<hostname>' is not in the allowed list] with the
    lower-cased hostname. *)
Theorem validateUrl_domain_allow_list
  (URL_new : jsstring -> option URL) (url : jsstring) (u : URL) :
  url <> [] -> length url <= 2048 ->
  URL_new url = Some u -> isHttp u -> ~ hasDangerous url ->
  let h := toLowerCase (hostname u) in
  (returns (validateUrl URL_new url) <-> allowedHost h) /\
  (~ allowedHost h ->
   throws (validateUrl URL_new url)
          (lit "URL domain '" ++ h ++ lit "' is not in the allowed list")).
Proof.
  intros Hne Hlen Hu Hhttp Hsafe h. unfold returns, throws.
  rewrite validateUrl_after_parse, Hu by assumption.
  apply isHttp_spec in Hhttp. rewrite Hhttp. cbn [negb].
  assert (Hd : test dangerousChars url = false).
  { apply not_true_iff_false. now rewrite dangerousChars_spec. }
  rewrite Hd. cbv zeta. fold h.
  pose proof (isAllowedDomain_spec h) as Hspec.
  destruct (existsb _ ALLOWED_FIGMA_DOMAINS).
  - split; [|intros Hn; exfalso; apply Hn; now apply Hspec].
    split; [intros _; now apply Hspec|reflexivity].
  - split; [|reflexivity].
    split; [discriminate|]. intros Ha. apply Hspec in Ha. discriminate.
Qed.

Lemma validateUrl_domain_allow_list_witness :
  ~ allowedHost (lit "evil.com") /\
  throws (validateUrl Platform.URL_new (lit "https://Evil.com/malicious"))
         (lit "URL domain 'evil.com' is not in the allowed list").
Proof.
  assert (Hn : ~ allowedHost (lit "evil.com")).
  { intros Ha. apply isAllowedDomain_spec in Ha. vm_compute in Ha. discriminate. }
  split; [exact Hn|].
  refine (proj2 (validateUrl_domain_allow_list Platform.URL_new
                   (lit "https://Evil.com/malicious")
                   {| protocol := lit "https:"; hostname := lit "evil.com" |}
                   _ _ _ _ _) Hn).
  - discriminate.
  - vm_compute. discriminate.
  - vm_compute. reflexivity.
  - left. reflexivity.
  - intros Hd. apply dangerousChars_spec in Hd. vm_compute in Hd. discriminate.
Defined.

(** C10. A non-empty string of at most 2048 code units that parses as an
    http or https URL with an allow-listed hostname and has no literal
    dangerous character is accepted.  Nothing in the function decodes
    percent-escapes, so an escaped metacharacter in the path or the query
    does not change the verdict. *)
Theorem validateUrl_accepts_percent_encoded
  (URL_new : jsstring -> option URL) (url : jsstring) (u : URL) :
  url <> [] -> length url <= 2048 ->
  URL_new url = Some u -> isHttp u ->
  allowedHost (toLowerCase (hostname u)) ->
  ~ hasDangerous url ->
  returns (validateUrl URL_new url).
Proof.
  intros Hne Hlen Hu Hhttp Hallowed Hsafe. unfold returns.
  rewrite validateUrl_after_parse, Hu by assumption.
  apply isHttp_spec in Hhttp. rewrite Hhttp. cbn [negb].
  assert (Hd : test dangerousChars url = false).
  { apply not_true_iff_false. now rewrite dangerousChars_spec. }
  rewrite Hd. cbv zeta.
  apply isAllowedDomain_spec in Hallowed. now rewrite Hallowed.
Qed.

Lemma validateUrl_accepts_percent_encoded_witness :
  escapedUrl = lit "https://api.figma.com/v1/files/a%3Bb?q=%24%28id" /\
  returns (validateUrl Platform.URL_new escapedUrl).
Proof.
  split; [vm_compute; reflexivity|].
  apply (validateUrl_accepts_percent_encoded Platform.URL_new escapedUrl
           {| protocol := lit "https:"; hostname := lit "api.figma.com" |}).
  - discriminate.
  - vm_compute. discriminate.
  - vm_compute. reflexivity.
  - left. reflexivity.
  - apply isAllowedDomain_spec. vm_compute. reflexivity.
  - intros Hd. apply dangerousChars_spec in Hd. vm_compute in Hd. discriminate.
Defined.

(** No escape sequence contains a dangerous character, whatever code unit
    it stands for. *)
Lemma percentEncoded_not_dangerous (c : N) :
  c < 256 -> ~ hasDangerous (percentEncoded c).
Proof.
  intros Hc Hd. apply dangerousChars_spec in Hd.
  assert (Hq : c / 16 < 16) by (apply N.Div0.div_lt_upper_bound; lia).
  assert (Hr : c mod 16 < 16) by (apply N.mod_lt; lia).
  unfold percentEncoded in Hd.
  assert (Hdig : forall d, d < 16 ->
            oneOf dangerousSet (hexDigit d) = false).
  { intros d Hdlt.
    assert (L : (N.to_nat d < 16)%nat) by lia.
    unfold hexDigit. generalize dependent (N.to_nat d). intros k L.
    do 16 (destruct k as [|k]; [vm_compute; reflexivity|]).
    lia. }
  change dangerousChars with (Cls (oneOf dangerousSet)) in Hd.
  rewrite test_Cls in Hd. cbn [existsb] in Hd.
  rewrite (Hdig _ Hq), (Hdig _ Hr) in Hd.
  vm_compute in Hd. discriminate.
Qed.

(* ================================================================= *)
(** ** Claims about validateCurlCommand *)

(** The three stages of the function. *)
Lemma validateCurlCommand_result (command : jsstring) :
  result (validateCurlCommand command) =
  if falsy command
  then inl (Error (lit "Command must be a non-empty string"))
  else if negb (startsWith (trim command) (lit "curl "))
  then inl (Error (lit "Command must start with curl"))
  else if existsb (fun pattern => test pattern command) dangerousPatterns
  then inl (Error (lit "Curl command contains potentially dangerous patterns"))
  else inr tt.
Proof.
  unfold validateCurlCommand.
  destruct (falsy command) eqn:Hf.
  { now rewrite result_guard_throw. }
  rewrite result_guard_skip by reflexivity.
  destruct (negb (startsWith (trim command) (lit "curl "))) eqn:Hc.
  { now rewrite result_guard_throw. }
  rewrite result_guard_skip by reflexivity.
  apply (result_forOf_guard dangerousPatterns
           (fun pattern => test pattern command)).
Qed.

(** C9. A non-empty command that starts, after trimming, with the token
    [curl ] and matches none of the six patterns is accepted.  The
    redirection characters [<] and [>] occur in no pattern, so a command
    with an output redirection passes. *)
Theorem validateCurlCommand_accepts_redirection (command : jsstring) :
  command <> [] ->
  startsWith (trim command) (lit "curl ") = true ->
  (forall pattern, In pattern dangerousPatterns -> test pattern command = false) ->
  returns (validateCurlCommand command).
Proof.
  intros Hne Hcurl Hnone. unfold returns.
  rewrite validateCurlCommand_result, (falsy_false _ Hne), Hcurl. cbn [negb].
  destruct (existsb _ dangerousPatterns) eqn:Hex; [|reflexivity].
  apply existsb_exists in Hex as (p & Hp & Ht).
  rewrite (Hnone p Hp) in Ht. discriminate.
Qed.

Lemma validateCurlCommand_accepts_redirection_witness :
  In (ch ">") redirected /\ returns (validateCurlCommand redirected).
Proof.
  split; [vm_compute; tauto|].
  apply (validateCurlCommand_accepts_redirection redirected).
  - discriminate.
  - vm_compute. reflexivity.
  - intros p Hp.
    repeat (destruct Hp as [<-|Hp]; [vm_compute; reflexivity|]).
    contradiction.
Defined.

(** A pattern that begins with a literal code unit only matches strings
    that contain it. *)
Lemma test_first_unit (c : N) (r : regex) (s : jsstring) :
  test (Seq (Chr c) r) s = true -> In c s.
Proof.
  rewrite test_spec. intros (pre & m & post & -> & (m1 & m2 & -> & Hc & _)).
  cbn in Hc. subst m1. apply in_or_app. right. now left.
Qed.

(** Every pattern of [validateCurlCommand] begins with one of
    [; | & ` $]: a command without these five code units is accepted. *)
Lemma validateCurlCommand_needs_metacharacter (command : jsstring) :
  (forall c, In c command -> ~ In c (lit ";|&`$")) ->
  forall pattern, In pattern dangerousPatterns -> test pattern command = false.
Proof.
  intros Hfree p Hp. apply not_true_iff_false. intros Ht.
  repeat (destruct Hp as [<-|Hp];
          [apply test_first_unit in Ht; apply (Hfree _ Ht); vm_compute; tauto|]).
  contradiction.
Qed.

(** C1, at the failing input.  The command starts with [curl ], its [;]
    stands outside every quotation, and [validateCurlCommand] returns
    normally: the first pattern wants a code unit other than a quote after
    the separator. *)
Theorem validateCurlCommand_admits_separator_before_quote :
  startsWith (trim separatorBeforeQuote) (lit "curl ") = true /\
  hasUnquoted (lit ";") separatorBeforeQuote = true /\
  returns (validateCurlCommand separatorBeforeQuote).
Proof. repeat split; vm_compute; reflexivity. Qed.

(** The pipe and the and-operator are admitted in the same position. *)
Lemma validateCurlCommand_admits_pipe_and_chain_before_quote :
  returns (validateCurlCommand
             (lit "curl https://api.figma.com/x|" ++ [DQ] ++ lit "sh" ++ [DQ])) /\
  returns (validateCurlCommand (lit "curl https://api.figma.com/x&&'rm' -rf /")).
Proof. split; vm_compute; reflexivity. Qed.

(** What the six patterns do catch. *)
Lemma flaggedShape_matches (command : jsstring) :
  flaggedShape command ->
  existsb (fun pattern => test pattern command) dangerousPatterns = true.
Proof.
  intros H. apply existsb_exists.
  destruct H as [sep pre w post c Hsep Hw Hc | pre post | pre mid post Hm
                | pre mid post Hm].
  - destruct Hsep as [<-|[<-|[<-|[]]]].
    + exists (nth 0 dangerousPatterns Eps). split; [cbn; tauto|].
      apply test_spec. exists pre, (ch ";" :: w ++ [c]), post. split.
      * cbn. now rewrite <- app_assoc.
      * exists [ch ";"], (w ++ [c]). repeat split.
        exists w, [c]. repeat split; [exact Hw|]. now exists c.
    + exists (nth 1 dangerousPatterns Eps). split; [cbn; tauto|].
      apply test_spec. exists pre, (ch "|" :: w ++ [c]), post. split.
      * cbn. now rewrite <- app_assoc.
      * exists [ch "|"], (w ++ [c]). repeat split.
        exists w, [c]. repeat split; [exact Hw|]. now exists c.
    + exists (nth 2 dangerousPatterns Eps). split; [cbn; tauto|].
      apply test_spec. exists pre, (ch "&" :: ch "&" :: w ++ [c]), post. split.
      * cbn. now rewrite <- app_assoc.
      * exists [ch "&"], (ch "&" :: w ++ [c]). repeat split.
        exists [ch "&"], (w ++ [c]). repeat split.
        exists w, [c]. repeat split; [exact Hw|]. now exists c.
  - exists (nth 1 dangerousPatterns Eps). split; [cbn; tauto|].
    apply test_spec. exists pre, (lit "||"), post. split; [reflexivity|].
    exists [ch "|"], [ch "|"]. repeat split.
    exists [], [ch "|"]. repeat split. now exists (ch "|").
  - exists (nth 4 dangerousPatterns Eps). split; [cbn; tauto|].
    apply test_spec. exists pre, (ch "`" :: mid ++ [ch "`"]), post. split.
    + cbn. now rewrite <- app_assoc.
    + exists [ch "`"], (mid ++ [ch "`"]). repeat split.
      exists mid, [ch "`"]. repeat split. exact Hm.
  - exists (nth 5 dangerousPatterns Eps). split; [cbn; tauto|].
    apply test_spec. exists pre, (lit "$(" ++ mid ++ [ch ")"]), post. split.
    + cbn. now rewrite <- app_assoc.
    + exists [ch "$"], (ch "(" :: mid ++ [ch ")"]). repeat split.
      exists [ch "("], (mid ++ [ch ")"]). repeat split.
      exists mid, [ch ")"]. repeat split. exact Hm.
Qed.

(** A command with a flagged shape is rejected, whether the shape stands
    inside a quotation or not. *)
Lemma validateCurlCommand_rejects_flagged (command : jsstring) :
  startsWith (trim command) (lit "curl ") = true ->
  flaggedShape command ->
  throws (validateCurlCommand command)
         (lit "Curl command contains potentially dangerous patterns").
Proof.
  intros Hcurl Hshape. unfold throws.
  rewrite validateCurlCommand_result, Hcurl, (flaggedShape_matches _ Hshape).
  destruct command; [discriminate Hcurl|reflexivity].
Qed.

(* ================================================================= *)
(** ** Claims about validateHeaders *)

(** The checks of the loop body, in the order of the source. *)
Lemma validateEntry_result (key value : jsstring) :
  result (validateEntry (key, value)) =
  if falsy key
  then inl (Error (lit "Header key must be a non-empty string"))
  else if falsy value
  then inl (Error (lit "Header value must be a non-empty string"))
  else if MAX_HEADER_KEY_LENGTH <? length key
  then inl (Error (lit "Header key exceeds maximum length of 256 characters"))
  else if MAX_HEADER_VALUE_LENGTH <? length value
  then inl (Error (lit "Header value exceeds maximum length of 8192 characters"))
  else if test dangerousKeyChars key
  then inl (Error (lit "Header key contains potentially dangerous characters"))
  else if test dangerousValueChars value
  then inl (Error (lit "Header value contains potentially dangerous characters"))
  else if existsb (fun pattern => test pattern value) injectionPatterns
  then inl (Error (lit "Header value contains potential injection pattern"))
  else inr tt.
Proof.
  unfold validateEntry.
  destruct (falsy key); [now rewrite result_guard_throw|].
  rewrite result_guard_skip by reflexivity.
  destruct (falsy value); [now rewrite result_guard_throw|].
  rewrite result_guard_skip by reflexivity.
  destruct (MAX_HEADER_KEY_LENGTH <? length key);
    [now rewrite result_guard_throw|].
  rewrite result_guard_skip by reflexivity.
  destruct (MAX_HEADER_VALUE_LENGTH <? length value);
    [now rewrite result_guard_throw|].
  rewrite result_guard_skip by reflexivity.
  destruct (test dangerousKeyChars key);
    [now rewrite result_guard_log_throw|].
  rewrite result_guard_skip by reflexivity.
  destruct (test dangerousValueChars value);
    [now rewrite result_guard_log_throw|].
  rewrite result_guard_skip by reflexivity.
  apply (result_forOf_guard injectionPatterns
           (fun pattern => test pattern value)).
Qed.

(** The verdict on a map is the verdict on its first invalid entry. *)
Lemma validateHeaders_first_invalid
      (pre post : Headers) (entry : jsstring * jsstring) (e : exn) :
  Forall validEntry pre ->
  result (validateEntry entry) = inl e ->
  result (validateHeaders (Some (pre ++ entry :: post))) = inl e.
Proof.
  intros Hpre He. cbn [validateHeaders]. unfold Object_entries.
  rewrite (result_forOf_first pre post entry validateEntry Hpre).
  now rewrite He.
Qed.

(** A map with an invalid entry is rejected. *)
Lemma validateHeaders_some_invalid (hs : Headers) (entry : jsstring * jsstring) :
  In entry hs -> fails (validateEntry entry) ->
  fails (validateHeaders (Some hs)).
Proof.
  intros Hin Hf. exact (forOf_fails hs entry validateEntry Hin Hf).
Qed.

(** C7, as stated, fails: the loop reports the first violation it meets.
    This map has an empty value, and the run stops at the entry before it
    with the message of the key character check. *)
Lemma validateHeaders_earlier_entry_decides :
  let headers := [(lit "a;b", lit "v"); (lit "k", [])] in
  In (lit "k", []) headers /\
  lengthViolation (lit "k") [] /\
  throws (validateHeaders (Some headers))
         (lit "Header key contains potentially dangerous characters") /\
  ~ throws (validateHeaders (Some headers))
           (lit "Header value must be a non-empty string").
Proof.
  cbv zeta. split; [right; left; reflexivity|].
  split; [right; left; reflexivity|].
  split; [vm_compute; reflexivity|].
  vm_compute. discriminate.
Qed.

(** The entry fails one of the four shape checks, and which one. *)
Lemma validateEntry_length_violation (key value : jsstring) :
  lengthViolation key value ->
  fails (validateEntry (key, value)) /\
  (key = [] ->
   throws (validateEntry (key, value))
          (lit "Header key must be a non-empty string")) /\
  (key <> [] -> value = [] ->
   throws (validateEntry (key, value))
          (lit "Header value must be a non-empty string")) /\
  (key <> [] -> value <> [] -> 256 < length key ->
   throws (validateEntry (key, value))
          (lit "Header key exceeds maximum length of 256 characters")) /\
  (key <> [] -> value <> [] -> length key <= 256 -> 8192 < length value ->
   throws (validateEntry (key, value))
          (lit "Header value exceeds maximum length of 8192 characters")).
Proof.
  intros Hv. unfold fails, throws. rewrite validateEntry_result.
  destruct key as [|k key]; cbn [falsy].
  { repeat split; eauto; intros; congruence. }
  destruct value as [|v value]; cbn [falsy].
  { repeat split; eauto; intros; congruence. }
  destruct (N.ltb_spec MAX_HEADER_KEY_LENGTH (length (k :: key))) as [Hk|Hk].
  { repeat split; eauto; try congruence.
    intros _ _ Hle. unfold MAX_HEADER_KEY_LENGTH in Hk. lia. }
  destruct (N.ltb_spec MAX_HEADER_VALUE_LENGTH (length (v :: value))) as [Hl|Hl].
  { repeat split; eauto; try congruence.
    intros _ _ Hlt. unfold MAX_HEADER_KEY_LENGTH in Hk. lia. }
  exfalso. destruct Hv as [H|[H|[H|H]]]; try discriminate; lia.
Qed.

(** C7, amended.  [validateHeaders(undefined)] returns normally.  A map
    with an entry whose key or value is empty, whose key is longer than 256
    or whose value is longer than 8192 code units is rejected; when the
    entries before it are valid, the message is the first violated one of
    the four constraints, in the order key empty, value empty, key too
    long, value too long. *)
Theorem validateHeaders_length_constraints :
  returns (validateHeaders None) /\
  forall (headers : Headers) (key value : jsstring),
    In (key, value) headers -> lengthViolation key value ->
    fails (validateHeaders (Some headers)) /\
    forall pre post : Headers,
      headers = pre ++ (key, value) :: post -> Forall validEntry pre ->
      (key = [] ->
       throws (validateHeaders (Some headers))
              (lit "Header key must be a non-empty string")) /\
      (key <> [] -> value = [] ->
       throws (validateHeaders (Some headers))
              (lit "Header value must be a non-empty string")) /\
      (key <> [] -> value <> [] -> 256 < length key ->
       throws (validateHeaders (Some headers))
              (lit "Header key exceeds maximum length of 256 characters")) /\
      (key <> [] -> value <> [] -> length key <= 256 -> 8192 < length value ->
       throws (validateHeaders (Some headers))
              (lit "Header value exceeds maximum length of 8192 characters")).
Proof.
  split; [reflexivity|].
  intros headers key value Hin Hv.
  destruct (validateEntry_length_violation key value Hv)
    as (Hfail & Hk0 & Hv0 & Hk1 & Hv1).
  split; [exact (validateHeaders_some_invalid headers (key, value) Hin Hfail)|].
  intros pre post -> Hpre. unfold throws in *.
  repeat split; intros;
    apply validateHeaders_first_invalid; auto.
Qed.

Lemma validateHeaders_length_constraints_witness :
  let headers := [(lit "Authorization", lit "Bearer token123"); (lit "key", [])] in
  lengthViolation (lit "key") [] /\
  throws (validateHeaders (Some headers))
         (lit "Header value must be a non-empty string").
Proof.
  cbv zeta.
  assert (Hv : lengthViolation (lit "key") []) by (right; left; reflexivity).
  split; [exact Hv|].
  refine (proj1 (proj2 (proj2 (proj2 validateHeaders_length_constraints
            [(lit "Authorization", lit "Bearer token123"); (lit "key", [])]
            (lit "key") [] _ Hv)
            [(lit "Authorization", lit "Bearer token123")] [] eq_refl _)) _ eq_refl).
  - right. left. reflexivity.
  - constructor; [vm_compute; reflexivity|constructor].
  - discriminate.
Defined.

(** A string without double quotes counts none. *)
Lemma count_notDQ (s : jsstring) :
  forallb notDQ s = true -> count_occ N.eq_dec s DQ = 0%nat.
Proof.
  induction s as [|c s IH]; [reflexivity|].
  cbn [forallb]. intros H. apply andb_true_iff in H as [Hc Hs].
  cbn [count_occ]. destruct (N.eq_dec c DQ) as [->|_]; [discriminate Hc|auto].
Qed.

(** The lookahead of the chaining patterns succeeds only on a remainder
    with exactly one double quote. *)
Lemma oneQuoteToEnd_count (m rest : jsstring) :
  Matches oneQuoteToEnd m rest -> count_occ N.eq_dec (m ++ rest) DQ = 1%nat.
Proof.
  intros (a & m1 & -> & Ha & (q & m2 & -> & Hq & (b & z & -> & Hb & (-> & ->)))).
  cbn in Ha, Hq, Hb. subst q.
  rewrite !app_nil_r, !count_occ_app, (count_notDQ a Ha), (count_notDQ b Hb).
  reflexivity.
Qed.

Lemma chaining_lookahead (post : jsstring) :
  count_occ N.eq_dec post DQ <> 1%nat -> Matches (NegLook oneQuoteToEnd) [] post.
Proof.
  intros Hn. split; [reflexivity|].
  intros (m' & rest' & -> & Hm). apply Hn. now apply oneQuoteToEnd_count.
Qed.

(** What the four injection patterns do catch. *)
Lemma injectionShape_matches (value : jsstring) :
  injectionShape value ->
  existsb (fun pattern => test pattern value) injectionPatterns = true.
Proof.
  intros H. apply existsb_exists.
  destruct H as [pre w1 id w2 post c Hw1 Hc Hid Hw2 | tok pre post Htok Hn
                | tok pre post Htok].
  - exists variableAssignment. split; [cbn; tauto|].
    apply test_spec.
    exists pre, (ch ";" :: w1 ++ c :: id ++ w2 ++ [ch "="]), post. split.
    + cbn. rewrite <- !app_assoc. cbn. now rewrite <- !app_assoc.
    + exists [ch ";"], (w1 ++ c :: id ++ w2 ++ [ch "="]). repeat split.
      exists w1, (c :: id ++ w2 ++ [ch "="]). repeat split; [exact Hw1|].
      exists [c], (id ++ w2 ++ [ch "="]). repeat split; [now exists c|].
      exists id, (w2 ++ [ch "="]). repeat split; [exact Hid|].
      exists w2, [ch "="]. repeat split. exact Hw2.
  - destruct Htok as [<-|[<-|[]]].
    + exists andChain. split; [cbn; tauto|].
      apply test_spec. exists pre, (lit "&&"), post. split; [reflexivity|].
      exists [ch "&"], [ch "&"]. repeat split.
      exists [ch "&"], []. split; [reflexivity|]. split; [reflexivity|].
      now apply chaining_lookahead.
    + exists orChain. split; [cbn; tauto|].
      apply test_spec. exists pre, (lit "||"), post. split; [reflexivity|].
      exists [ch "|"], [ch "|"]. repeat split.
      exists [ch "|"], []. split; [reflexivity|]. split; [reflexivity|].
      now apply chaining_lookahead.
  - exists commandSubstitution. split; [cbn; tauto|].
    apply test_spec. exists pre, tok, post. split; [reflexivity|].
    destruct Htok as [<-|[<-|[]]]; [left|right];
      exists [ch "$"]; eexists; repeat split.
Qed.


(** A value that opens a substitution holds a dollar sign, which is in the
    character class of the value check. *)
Lemma substitution_is_dangerous_value (tok pre post : jsstring) :
  In tok [lit "$("; lit "${"] ->
  test dangerousValueChars (pre ++ tok ++ post) = true.
Proof.
  intros Htok. apply test_oneOf. exists (ch "$"). split; [|vm_compute; tauto].
  apply in_or_app. right. apply in_or_app. left.
  destruct Htok as [<-|[<-|[]]]; now left.
Qed.



(** A defect of the chaining patterns, outside the amended claim: the
    lookahead takes a single double quote after the token for the end of a
    quotation that spans it.  This value is accepted although its [&&]
    stands outside any quotation (no double quote precedes it), against
    the source comment on the pattern. *)
Lemma validateHeaders_chain_before_lone_quote :
  returns (validateHeaders
             (Some [(lit "Custom-Header", lit "value && curl evil.com" ++ [DQ])])).
Proof. vm_compute. reflexivity. Qed.



(* ================================================================= *)
(** ** Claims about fetchWithRetry *)

Module FetcherFacts.
Import Fetcher.

Lemma fetchCalls_app (a b : trace) :
  fetchCalls (a ++ b) = (fetchCalls a + fetchCalls b)%nat.
Proof. unfold fetchCalls. now rewrite filter_app, length_app. Qed.

Lemma execCalls_app (a b : trace) :
  execCalls (a ++ b) = (execCalls a + execCalls b)%nat.
Proof. unfold execCalls. now rewrite filter_app, length_app. Qed.

Lemma fetchCalls_logs (lines : list jsstring) :
  fetchCalls (List.map LogError lines) = 0%nat.
Proof. induction lines; [reflexivity|exact IHlines]. Qed.

Lemma execCalls_logs (lines : list jsstring) :
  execCalls (List.map LogError lines) = 0%nat.
Proof. induction lines; [reflexivity|exact IHlines]. Qed.

Lemma logs_only (lines : list jsstring) :
  forallb isLogError (List.map LogError lines) = true.
Proof. induction lines; [reflexivity|exact IHlines]. Qed.

(** The verdict of the gate on URL and headers. *)
Lemma gate_result (URL_new : jsstring -> option URL)
      (url : jsstring) (headers : option Headers) :
  result (validateUrl URL_new url ;; validateHeaders headers) =
  match result (validateUrl URL_new url) with
  | inl e => inl e
  | inr _ => result (validateHeaders headers)
  end.
Proof. apply result_bind. Qed.

End FetcherFacts.
Import FetcherFacts.

Section FetcherClaims.
Import Fetcher.

Variable URL_new : jsstring -> option URL.
Variable maxAttempts : nat.
Variable backoff : nat -> N.
Variable nativeFetch : nat -> jsstring -> option Headers -> exn + jsstring.
Variable shellExec : nat -> jsstring -> exn + (jsstring * jsstring).
Variable assembleCommand : jsstring -> option Headers -> jsstring.

(** C3. When the URL or the header map fails validation, the call rejects
    with [Security validation failed: ] followed by the message of the
    validator that failed (the URL's when both fail), and the only calls it
    makes are to the logger: no native fetch, no shell, no backoff.
    Settled on the model of [fetchWithRetry] written from section 4.2. *)
Theorem fetchWithRetry_validation_gate
  (url : jsstring) (headers : option Headers) :
  fails (validateUrl URL_new url) \/ fails (validateHeaders headers) ->
  exists msg : jsstring,
    (throws (validateUrl URL_new url) msg \/
     (returns (validateUrl URL_new url) /\ throws (validateHeaders headers) msg)) /\
    fst (fetchWithRetry URL_new maxAttempts backoff nativeFetch
                        shellExec assembleCommand url headers []) =
      inl (Error (lit "Security validation failed: " ++ msg)) /\
    fetchCalls (snd (fetchWithRetry URL_new maxAttempts backoff nativeFetch
                        shellExec assembleCommand url headers [])) = 0%nat /\
    execCalls (snd (fetchWithRetry URL_new maxAttempts backoff nativeFetch
                        shellExec assembleCommand url headers [])) = 0%nat /\
    forallb isLogError (snd (fetchWithRetry URL_new maxAttempts backoff nativeFetch
                        shellExec assembleCommand url headers [])) = true.
Proof.
  intros Hfail.
  assert (Hgate : exists msg,
             (throws (validateUrl URL_new url) msg \/
              (returns (validateUrl URL_new url) /\
               throws (validateHeaders headers) msg)) /\
             result (validateUrl URL_new url ;; validateHeaders headers)
             = inl (Error msg)).
  { rewrite gate_result. unfold throws, returns.
    destruct (result (validateUrl URL_new url)) as [[msg]|[]] eqn:Hu.
    - exists msg. auto.
    - destruct Hfail as [[e He]|[[msg] He]]; [congruence|].
      exists msg. auto. }
  destruct Hgate as (msg & Hwhich & Hres).
  exists msg. split; [exact Hwhich|].
  unfold fetchWithRetry.
  assert (Hrun : forall n k,
             retry URL_new backoff nativeFetch shellExec assembleCommand
                   n k url headers [] =
             (inl (securityFailure (Error msg)),
              List.map LogError (logs (validateUrl URL_new url ;; validateHeaders headers)))).
  { intros n k. destruct n; cbn [retry]; unfold io_bind, attempt, io_bind,
      runValidator; rewrite Hres; reflexivity. }
  rewrite Hrun. cbn [fst snd].
  split; [reflexivity|].
  split; [apply fetchCalls_logs|].
  split; [apply execCalls_logs|apply logs_only].
Qed.

Section Exhaustion.

Variable url : jsstring.
Variable headers : option Headers.

Hypothesis gate_passes :
  returns (validateUrl URL_new url) /\ returns (validateHeaders headers).
Hypothesis command_passes :
  returns (validateCurlCommand (assembleCommand url headers)).
Hypothesis fetch_rejects :
  forall n, exists e, nativeFetch n url headers = inl e.
Hypothesis exec_fails :
  forall n, execError (shellExec n (assembleCommand url headers)) <> None.

(** An attempt under these conditions calls each collaborator once and
    fails with the error of the shell. *)
Lemma attempt_transport_failure (tr : trace) :
  exists (e : exn) (tr' : trace),
    attempt URL_new nativeFetch shellExec assembleCommand url headers tr = (Retryable e, tr') /\
    execError (shellExec (execCalls tr) (assembleCommand url headers)) = Some e /\
    fetchCalls tr' = S (fetchCalls tr) /\
    execCalls tr' = S (execCalls tr).
Proof.
  destruct gate_passes as [Hu Hh].
  assert (Hgate : result (validateUrl URL_new url ;; validateHeaders headers) = inr tt).
  { rewrite gate_result. unfold returns in Hu, Hh. now rewrite Hu. }
  unfold attempt, io_bind, runValidator, callFetch, callExec.
  rewrite Hgate.
  destruct (fetch_rejects
              (fetchCalls (tr ++ List.map LogError
                 (logs (validateUrl URL_new url ;; validateHeaders headers)))))
    as [fe Hfe].
  rewrite Hfe. unfold returns in command_passes. rewrite command_passes.
  set (tr1 := tr ++ List.map LogError
                (logs (validateUrl URL_new url ;; validateHeaders headers))).
  set (tr2 := (tr1 ++ [FetchCall url headers]) ++
              List.map LogError
                (logs (validateCurlCommand (assembleCommand url headers)))).
  assert (Hexec2 : execCalls tr2 = execCalls tr).
  { unfold tr2, tr1. rewrite !execCalls_app, !execCalls_logs. cbn. lia. }
  assert (Hfetch2 : fetchCalls tr2 = S (fetchCalls tr)).
  { unfold tr2, tr1. rewrite !fetchCalls_app, !fetchCalls_logs. cbn. lia. }
  rewrite Hexec2.
  destruct (execError (shellExec (execCalls tr) (assembleCommand url headers)))
    as [e|] eqn:He; [|now apply exec_fails in He].
  exists e, (tr2 ++ [ExecCall (assembleCommand url headers)]).
  unfold io_ret. repeat split.
  - rewrite fetchCalls_app, Hfetch2. cbn. lia.
  - rewrite execCalls_app, Hexec2. cbn. lia.
Qed.

(** With [n] retries left the loop makes [n + 1] attempts and ends with
    the error of the last call of the shell. *)
Lemma retry_exhausts (n : nat) :
  forall (k : nat) (tr : trace),
  exists e : exn,
    execError (shellExec (execCalls tr + n) (assembleCommand url headers)) = Some e /\
    fst (retry URL_new backoff nativeFetch shellExec assembleCommand
          n k url headers tr) = inl e /\
    fetchCalls (snd (retry URL_new backoff nativeFetch shellExec assembleCommand
          n k url headers tr)) = (fetchCalls tr + S n)%nat /\
    execCalls (snd (retry URL_new backoff nativeFetch shellExec assembleCommand
          n k url headers tr)) = (execCalls tr + S n)%nat.
Proof.
  induction n as [|n IH]; intros k tr;
    destruct (attempt_transport_failure tr) as (e & tr' & Ha & He & Hf & Hx).
  - exists e. cbn [retry]. unfold io_bind. rewrite Ha. cbn [fst snd io_ret].
    rewrite PeanoNat.Nat.add_0_r. repeat split; [exact He|lia|lia].
  - assert (Hstep :
      retry URL_new backoff nativeFetch shellExec assembleCommand
            (S n) k url headers tr =
      retry URL_new backoff nativeFetch shellExec assembleCommand
            n (S k) url headers (tr' ++ [Sleep (backoff k)])).
    { cbn [retry]. unfold io_bind, emit. rewrite Ha. reflexivity. }
    rewrite Hstep.
    destruct (IH (S k) (tr' ++ [Sleep (backoff k)])) as (e' & He' & Hr & Hf' & Hx').
    assert (Hxs : execCalls (tr' ++ [Sleep (backoff k)]) = S (execCalls tr))
      by (rewrite execCalls_app, Hx; cbn; lia).
    assert (Hfs : fetchCalls (tr' ++ [Sleep (backoff k)]) = S (fetchCalls tr))
      by (rewrite fetchCalls_app, Hf; cbn; lia).
    exists e'. rewrite Hxs in He', Hx'. rewrite Hfs in Hf'.
    replace (execCalls tr + S n)%nat with (S (execCalls tr) + n)%nat by lia.
    repeat split; [exact He'|exact Hr|rewrite Hf'; lia|rewrite Hx'; lia].
Qed.

End Exhaustion.

(** C6, amended.  For a request that passes the gate and whose assembled
    command passes [validateCurlCommand]: when the native fetch rejects at every
    invocation and the shell fails at every invocation, the call makes
    exactly [maxAttempts] attempts (that many calls of the native fetch and
    of the shell) and rejects with the error of the last call of the
    shell, unchanged.  Settled on the model of [fetchWithRetry] written
    from section 4.2. *)
Theorem fetchWithRetry_retry_budget
  (url : jsstring) (headers : option Headers) :
  (0 < maxAttempts)%nat ->
  returns (validateUrl URL_new url) /\ returns (validateHeaders headers) ->
  returns (validateCurlCommand (assembleCommand url headers)) ->
  (forall n, exists e, nativeFetch n url headers = inl e) ->
  (forall n, execError (shellExec n (assembleCommand url headers)) <> None) ->
  fetchCalls (snd (fetchWithRetry URL_new maxAttempts backoff nativeFetch
                        shellExec assembleCommand url headers [])) = maxAttempts /\
  execCalls (snd (fetchWithRetry URL_new maxAttempts backoff nativeFetch
                        shellExec assembleCommand url headers [])) = maxAttempts /\
  exists e : exn,
    execError (shellExec (maxAttempts - 1) (assembleCommand url headers)) = Some e /\
    fst (fetchWithRetry URL_new maxAttempts backoff nativeFetch
                        shellExec assembleCommand url headers []) = inl e.
Proof.
  intros Hmax Hgate Hcmd Hfetch Hexec. unfold fetchWithRetry.
  destruct (retry_exhausts url headers Hgate Hcmd Hfetch Hexec
              (maxAttempts - 1) 1%nat [])
    as (e & He & Hr & Hf & Hx).
  cbn in He, Hf, Hx.
  split; [rewrite Hf; lia|]. split; [rewrite Hx; lia|].
  exists e. split; [exact He|exact Hr].
Qed.

End FetcherClaims.

Lemma fetchWithRetry_validation_gate_witness :
  fails (validateUrl Platform.URL_new maliciousUrl) /\
  exists msg : jsstring,
    (throws (validateUrl Platform.URL_new maliciousUrl) msg \/
     (returns (validateUrl Platform.URL_new maliciousUrl) /\
      throws (validateHeaders validHeaders) msg)) /\
    fst (Fetcher.fetchWithRetry Platform.URL_new 3 linearBackoff
           fetchAlwaysRejects execAlwaysFails Fetcher.assembleCurlCommand
           maliciousUrl validHeaders []) =
      inl (Error (lit "Security validation failed: " ++ msg)) /\
    Fetcher.fetchCalls
      (snd (Fetcher.fetchWithRetry Platform.URL_new 3 linearBackoff
              fetchAlwaysRejects execAlwaysFails Fetcher.assembleCurlCommand
              maliciousUrl validHeaders [])) = 0%nat /\
    Fetcher.execCalls
      (snd (Fetcher.fetchWithRetry Platform.URL_new 3 linearBackoff
              fetchAlwaysRejects execAlwaysFails Fetcher.assembleCurlCommand
              maliciousUrl validHeaders [])) = 0%nat /\
    forallb Fetcher.isLogError
      (snd (Fetcher.fetchWithRetry Platform.URL_new 3 linearBackoff
              fetchAlwaysRejects execAlwaysFails Fetcher.assembleCurlCommand
              maliciousUrl validHeaders [])) = true.
Proof.
  assert (H : fails (validateUrl Platform.URL_new maliciousUrl))
    by (eexists; vm_compute; reflexivity).
  split; [exact H|].
  apply (fetchWithRetry_validation_gate Platform.URL_new 3 linearBackoff
           fetchAlwaysRejects execAlwaysFails Fetcher.assembleCurlCommand
           maliciousUrl validHeaders).
  left. exact H.
Defined.

(** C6, as stated, fails on the model: a request can pass the gate and
    still be stopped at the command line.  The native fetch rejects every
    time and the shell fails every time, the budget is three attempts; the
    call makes one call of the native fetch and none of the shell, and
    rejects with a security failure. *)
Lemma fetchWithRetry_command_gate_ends_call :
  returns (validateUrl Platform.URL_new validUrl) /\
  returns (validateHeaders semicolonHeaders) /\
  Fetcher.fetchCalls
    (snd (Fetcher.fetchWithRetry Platform.URL_new 3 linearBackoff
            fetchAlwaysRejects execAlwaysFails Fetcher.assembleCurlCommand
            validUrl semicolonHeaders [])) = 1%nat /\
  Fetcher.execCalls
    (snd (Fetcher.fetchWithRetry Platform.URL_new 3 linearBackoff
            fetchAlwaysRejects execAlwaysFails Fetcher.assembleCurlCommand
            validUrl semicolonHeaders [])) = 0%nat /\
  fst (Fetcher.fetchWithRetry Platform.URL_new 3 linearBackoff
         fetchAlwaysRejects execAlwaysFails Fetcher.assembleCurlCommand
         validUrl semicolonHeaders []) =
    inl (Error (lit "Security validation failed: Curl command contains potentially dangerous patterns")).
Proof. repeat split; vm_compute; reflexivity. Qed.

Lemma fetchWithRetry_retry_budget_witness :
  returns (validateCurlCommand (Fetcher.assembleCurlCommand validUrl validHeaders)) /\
  Fetcher.fetchCalls
    (snd (Fetcher.fetchWithRetry Platform.URL_new 3 linearBackoff
            fetchAlwaysRejects execAlwaysFails Fetcher.assembleCurlCommand
            validUrl validHeaders [])) = 3%nat /\
  Fetcher.execCalls
    (snd (Fetcher.fetchWithRetry Platform.URL_new 3 linearBackoff
            fetchAlwaysRejects execAlwaysFails Fetcher.assembleCurlCommand
            validUrl validHeaders [])) = 3%nat /\
  exists e : exn,
    Fetcher.execError
      (execAlwaysFails (3 - 1) (Fetcher.assembleCurlCommand validUrl validHeaders))
    = Some e /\
    fst (Fetcher.fetchWithRetry Platform.URL_new 3 linearBackoff
           fetchAlwaysRejects execAlwaysFails Fetcher.assembleCurlCommand
           validUrl validHeaders []) = inl e.
Proof.
  assert (Hc : returns (validateCurlCommand
                          (Fetcher.assembleCurlCommand validUrl validHeaders)))
    by (vm_compute; reflexivity).
  split; [exact Hc|].
  apply (fetchWithRetry_retry_budget Platform.URL_new 3 linearBackoff
           fetchAlwaysRejects execAlwaysFails Fetcher.assembleCurlCommand
           validUrl validHeaders).
  - lia.
  - split; vm_compute; reflexivity.
  - exact Hc.
  - intros n. eexists. reflexivity.
  - intros n. discriminate.
Defined.

(* ================================================================= *)
(** ** Whole runs: verdict and log lines together *)

Lemma run_guard_skip (body rest : M unit) :
  (when false body ;; rest) = rest.
Proof. cbn. now destruct rest. Qed.

Lemma run_guard_throw (e : exn) (rest : M unit) :
  (when true (throw e) ;; rest) = ([], inl e).
Proof. reflexivity. Qed.

Lemma run_guard_log_throw (line : jsstring) (e : exn) (rest : M unit) :
  (when true (Logger_error line ;; throw e) ;; rest) = ([line], inl e).
Proof. reflexivity. Qed.

Lemma run_forOf_guard {A : Type} (xs : list A) (c : A -> bool)
      (line : jsstring) (e : exn) :
  forOf xs (fun x => when (c x) (Logger_error line ;; throw e)) =
  if existsb c xs then ([line], inl e) else ([], inr tt).
Proof.
  induction xs as [|x xs IH]; [reflexivity|].
  cbn [forOf existsb]. destruct (c x); [reflexivity|].
  cbn [orb]. now rewrite run_guard_skip.
Qed.

(** The run of [validateUrl], check by check. *)
Lemma validateUrl_run (URL_new : jsstring -> option URL) (url : jsstring) :
  validateUrl URL_new url =
  if falsy url
  then ([], inl (Error (lit "URL must be a non-empty string")))
  else if MAX_URL_LENGTH <? length url
  then ([], inl (Error (lit "URL exceeds maximum length of 2048 characters")))
  else
    match URL_new url with
    | None => ([], inl (Error (lit "Invalid URL format")))
    | Some u =>
        if negb (includes [lit "https:"; lit "http:"] (protocol u))
        then ([], inl (Error (lit "Only HTTP and HTTPS URLs are allowed")))
        else if test dangerousChars url
        then ([urlLogPrefix ++ substring0 100 url ++ lit "..."],
              inl (Error (lit "URL contains potentially dangerous characters")))
        else
          let h := toLowerCase (hostname u) in
          if existsb (fun domain => JS.eqb h domain || endsWith h (lit "." ++ domain))
                     ALLOWED_FIGMA_DOMAINS
          then ([], inr tt)
          else ([lit "[Security] Blocked URL to unauthorized domain: " ++ h],
                inl (Error (lit "URL domain '" ++ h
                              ++ lit "' is not in the allowed list")))
    end.
Proof.
  unfold validateUrl.
  destruct (falsy url); [reflexivity|]. rewrite run_guard_skip.
  destruct (MAX_URL_LENGTH <? length url); [reflexivity|]. rewrite run_guard_skip.
  destruct (URL_new url) as [u|]; [|reflexivity].
  change (bind (ret u) ?f) with (bind ([], inr u) f). cbn [bind].
  match goal with |- (let (l', r) := ?m in ([] ++ l', r)) = _ =>
    transitivity m; [now destruct m|] end.
  destruct (negb (includes _ (protocol u))); [reflexivity|]. rewrite run_guard_skip.
  destruct (test dangerousChars url); [reflexivity|]. rewrite run_guard_skip.
  cbv zeta. now destruct (existsb _ ALLOWED_FIGMA_DOMAINS).
Qed.

(* ================================================================= *)
(** ** Further properties of validateUrl *)

(** X1. [validateUrl] returns normally exactly for the non-empty strings
    of at most 2048 code units that the platform parses as an http or
    https URL, that hold no dangerous character and whose lower-cased
    hostname is allow-listed: an accepted URL has all six properties. *)
Theorem validateUrl_returns_iff
  (URL_new : jsstring -> option URL) (url : jsstring) :
  returns (validateUrl URL_new url) <->
  url <> [] /\ length url <= 2048 /\
  exists u, URL_new url = Some u /\ isHttp u /\ ~ hasDangerous url /\
            allowedHost (toLowerCase (hostname u)).
Proof.
  unfold returns. rewrite validateUrl_run.
  destruct url as [|c url]; cbn [falsy].
  { split; [discriminate|]. now intros [H _]. }
  destruct (N.ltb_spec MAX_URL_LENGTH (length (c :: url))) as [Hl|Hl].
  { split; [discriminate|]. intros (_ & H & _). unfold MAX_URL_LENGTH in Hl. lia. }
  destruct (URL_new (c :: url)) as [u|].
  2:{ split; [discriminate|]. now intros (_ & _ & u & H & _). }
  pose proof (isHttp_spec u) as Hhttp.
  pose proof (dangerousChars_spec (c :: url)) as Hdang.
  pose proof (isAllowedDomain_spec (toLowerCase (hostname u))) as Hdom.
  destruct (includes _ (protocol u)); cbn [negb].
  2:{ split; [discriminate|]. intros (_ & _ & u' & E & H & _).
      injection E as <-. apply Hhttp in H. discriminate. }
  destruct (test dangerousChars (c :: url)).
  { split; [discriminate|]. intros (_ & _ & u' & _ & _ & H & _).
    exfalso. apply H. now apply Hdang. }
  cbv zeta. destruct (existsb _ ALLOWED_FIGMA_DOMAINS).
  - split; [|reflexivity]. intros _.
    split; [discriminate|]. split; [exact Hl|]. exists u.
    split; [reflexivity|]. split; [now apply Hhttp|].
    split; [|now apply Hdom]. intros H. apply Hdang in H. discriminate.
  - split; [discriminate|]. intros (_ & _ & u' & E & _ & _ & H).
    injection E as <-. apply Hdom in H. discriminate.
Qed.

(** Every entry of the allow-list is [figma.com] or a sub-label of it. *)
Lemma allowedHost_figma (h : jsstring) :
  allowedHost h <->
  h = lit "figma.com" \/ exists sub, h = sub ++ lit ".figma.com".
Proof.
  split.
  - intros (d & Hd & H).
    assert (Hdom : d = lit "figma.com" \/ exists s, d = s ++ lit ".figma.com").
    { destruct Hd as [<-|[<-|[<-|[<-|[]]]]].
      - right. now exists (lit "api").
      - now left.
      - right. now exists (lit "s3-alpha-sig").
      - right. now exists (lit "s3-alpha"). }
    destruct H as [->|[sub ->]]; [exact Hdom|]. right.
    destruct Hdom as [->|[s ->]].
    + now exists sub.
    + exists (sub ++ lit "." ++ s). now rewrite <- !app_assoc.
  - intros H. exists (lit "figma.com"). split; [cbn; tauto|exact H].
Qed.

(** X2. The four entries of the allow-list admit the same hosts as the
    single entry [figma.com]: a URL that passes the earlier checks is
    accepted exactly when its lower-cased hostname is [figma.com] or ends
    with [.figma.com]; a host that ends with [figma.com] without the dot
    boundary is rejected. *)
Theorem validateUrl_figma_com_only
  (URL_new : jsstring -> option URL) (url : jsstring) (u : URL) :
  url <> [] -> length url <= 2048 ->
  URL_new url = Some u -> isHttp u -> ~ hasDangerous url ->
  (returns (validateUrl URL_new url) <->
   toLowerCase (hostname u) = lit "figma.com" \/
   exists sub, toLowerCase (hostname u) = sub ++ lit ".figma.com").
Proof.
  intros Hne Hlen Hu Hhttp Hsafe.
  rewrite <- allowedHost_figma, <- isAllowedDomain_spec. unfold returns.
  rewrite validateUrl_after_parse, Hu by assumption.
  apply isHttp_spec in Hhttp. rewrite Hhttp. cbn [negb].
  assert (Hd : test dangerousChars url = false).
  { apply not_true_iff_false. now rewrite dangerousChars_spec. }
  rewrite Hd. cbv zeta.
  destruct (existsb _ ALLOWED_FIGMA_DOMAINS); split; congruence.
Qed.

Lemma validateUrl_figma_com_only_witness :
  returns (validateUrl Platform.URL_new (lit "https://www.figma.com/file/abc")) /\
  ~ returns (validateUrl Platform.URL_new (lit "https://notfigma.com/file/abc")).
Proof.
  split.
  - apply (validateUrl_figma_com_only Platform.URL_new
             (lit "https://www.figma.com/file/abc")
             {| protocol := lit "https:"; hostname := lit "www.figma.com" |}).
    + discriminate.
    + vm_compute. discriminate.
    + vm_compute. reflexivity.
    + left. reflexivity.
    + intros Hd. apply dangerousChars_spec in Hd. vm_compute in Hd. discriminate.
    + right. now exists (lit "www").
  - vm_compute. discriminate.
Defined.

(** X3. The shape checks of [validateUrl] and their precedence: the empty
    string gets [URL must be a non-empty string]; a non-empty string within
    the ceiling that the platform does not parse gets [Invalid URL format];
    a parsed URL of another scheme gets
    [Only HTTP and HTTPS URLs are allowed], whatever characters and host it
    has. *)
Theorem validateUrl_shape_errors
  (URL_new : jsstring -> option URL) (url : jsstring) :
  (url = [] ->
   throws (validateUrl URL_new url) (lit "URL must be a non-empty string")) /\
  (url <> [] -> length url <= 2048 -> URL_new url = None ->
   throws (validateUrl URL_new url) (lit "Invalid URL format")) /\
  (forall u, url <> [] -> length url <= 2048 -> URL_new url = Some u ->
     ~ isHttp u ->
     throws (validateUrl URL_new url) (lit "Only HTTP and HTTPS URLs are allowed")).
Proof.
  unfold throws. repeat split.
  - intros ->. reflexivity.
  - intros Hne Hlen Hu. now rewrite validateUrl_after_parse, Hu.
  - intros u Hne Hlen Hu Hn. rewrite validateUrl_after_parse, Hu by assumption.
    destruct (includes _ (protocol u)) eqn:Hp; [|reflexivity].
    exfalso. apply Hn. now apply isHttp_spec.
Qed.

Lemma validateUrl_shape_errors_witness :
  throws (validateUrl Platform.URL_new [])
         (lit "URL must be a non-empty string") /\
  throws (validateUrl Platform.URL_new (lit "not-a-url"))
         (lit "Invalid URL format") /\
  throws (validateUrl Platform.URL_new (lit "ftp://evil.com/a;b"))
         (lit "Only HTTP and HTTPS URLs are allowed").
Proof.
  split; [|split].
  - exact (proj1 (validateUrl_shape_errors Platform.URL_new []) eq_refl).
  - apply (proj1 (proj2 (validateUrl_shape_errors Platform.URL_new
                           (lit "not-a-url")))).
    + discriminate.
    + vm_compute. discriminate.
    + vm_compute. reflexivity.
  - apply (proj2 (proj2 (validateUrl_shape_errors Platform.URL_new
                           (lit "ftp://evil.com/a;b")))
             {| protocol := lit "ftp:"; hostname := lit "evil.com" |}).
    + discriminate.
    + vm_compute. discriminate.
    + vm_compute. reflexivity.
    + intros [H|H]; discriminate H.
Defined.

Lemma length_app_N (a b : jsstring) : length (a ++ b) = length a + length b.
Proof. unfold length. rewrite length_app. lia. Qed.

Lemma length_substring0 (n : nat) (s : jsstring) :
  length (substring0 n s) <= N.of_nat n.
Proof.
  unfold length, substring0. pose proof (firstn_le_length n s). lia.
Qed.

(** X4. What [validateUrl] hands to the logger: nothing when it returns
    normally or fails a shape check, exactly one line on each of the two
    security rejections.  The line of the character rejection carries the
    first 100 code units of the URL and is at most 153 code units long,
    whatever the length of the URL; the line of the domain rejection
    carries the lower-cased hostname of the message. *)
Theorem validateUrl_logging
  (URL_new : jsstring -> option URL) (url : jsstring) :
  (returns (validateUrl URL_new url) -> logs (validateUrl URL_new url) = []) /\
  (List.length (logs (validateUrl URL_new url)) <= 1)%nat /\
  (throws (validateUrl URL_new url)
          (lit "URL contains potentially dangerous characters") ->
   logs (validateUrl URL_new url) =
     [urlLogPrefix ++ substring0 100 url ++ lit "..."]) /\
  length (urlLogPrefix ++ substring0 100 url ++ lit "...") <= 153 /\
  (forall h,
     throws (validateUrl URL_new url)
            (lit "URL domain '" ++ h ++ lit "' is not in the allowed list") ->
     logs (validateUrl URL_new url) =
       [lit "[Security] Blocked URL to unauthorized domain: " ++ h]) /\
  (logs (validateUrl URL_new url) <> [] ->
   throws (validateUrl URL_new url)
          (lit "URL contains potentially dangerous characters") \/
   exists h, throws (validateUrl URL_new url)
               (lit "URL domain '" ++ h ++ lit "' is not in the allowed list")).
Proof.
  assert (Hbound : length (urlLogPrefix ++ substring0 100 url ++ lit "...") <= 153).
  { rewrite !length_app_N. pose proof (length_substring0 100 url) as H.
    change (length urlLogPrefix) with 50. change (length (lit "...")) with 3. lia. }
  unfold returns, throws. rewrite validateUrl_run.
  destruct (falsy url).
  { cbn [logs result fst snd List.length].
    repeat split; auto; try discriminate; try lia. now intros []. }
  destruct (MAX_URL_LENGTH <? length url).
  { cbn [logs result fst snd List.length].
    repeat split; auto; try discriminate; try lia. now intros []. }
  destruct (URL_new url) as [u|].
  2:{ cbn [logs result fst snd List.length].
      repeat split; auto; try discriminate; try lia. now intros []. }
  destruct (negb (includes _ (protocol u))).
  { cbn [logs result fst snd List.length].
    repeat split; auto; try discriminate; try lia. now intros []. }
  destruct (test dangerousChars url).
  { cbn [logs result fst snd List.length].
    repeat split; auto; discriminate. }
  cbv zeta. destruct (existsb _ ALLOWED_FIGMA_DOMAINS).
  - cbn [logs result fst snd List.length].
    repeat split; auto; try discriminate; try lia. now intros [].
  - cbn [logs result fst snd List.length].
    split; [discriminate|]. split; [lia|]. split.
    + intros H. exfalso. injection H as H. discriminate H.
    + split; [exact Hbound|]. split.
      * intros h H. injection H as H.
        apply app_inv_tail in H. now subst h.
      * intros _. right. eauto.
Qed.

Lemma validateUrl_logging_witness :
  logs (validateUrl Platform.URL_new maliciousUrl) =
    [urlLogPrefix ++ substring0 100 maliciousUrl ++ lit "..."] /\
  logs (validateUrl Platform.URL_new (lit "https://evil.com/malicious")) =
    [lit "[Security] Blocked URL to unauthorized domain: evil.com"].
Proof.
  split.
  - apply (proj1 (proj2 (proj2
             (validateUrl_logging Platform.URL_new maliciousUrl)))).
    vm_compute. reflexivity.
  - apply (proj1 (proj2 (proj2 (proj2 (proj2
             (validateUrl_logging Platform.URL_new
                (lit "https://evil.com/malicious"))))))
             (lit "evil.com")).
    vm_compute. reflexivity.
Defined.

(* ================================================================= *)
(** ** Further properties of validateHeaders *)

(** A loop returns normally exactly when its body does on every element. *)
Lemma forOf_returns_iff {A : Type} (xs : list A) (body : A -> M unit) :
  returns (forOf xs body) <-> Forall (fun x => returns (body x)) xs.
Proof.
  unfold returns. induction xs as [|x xs IH].
  - split; [constructor|reflexivity].
  - rewrite result_forOf_cons. split.
    + intros H. destruct (result (body x)) as [e|[]] eqn:Hx; [discriminate|].
      constructor; [exact Hx|now apply IH].
    + intros H. inversion H as [|y ys Hx Hxs]; subst.
      rewrite Hx. now apply IH.
Qed.

(** A loop that throws, throws what its body throws on some element. *)
Lemma forOf_throws_inv {A : Type} (xs : list A) (body : A -> M unit) (e : exn) :
  result (forOf xs body) = inl e ->
  exists x, In x xs /\ result (body x) = inl e.
Proof.
  induction xs as [|x xs IH]; [discriminate|].
  rewrite result_forOf_cons.
  destruct (result (body x)) as [e'|[]] eqn:Hx.
  - intros H. injection H as ->. exists x. split; [now left|exact Hx].
  - intros H. destruct (IH H) as (y & Hy & He). exists y. split; [now right|exact He].
Qed.

Lemma validateHeaders_returns_Forall (headers : Headers) :
  returns (validateHeaders (Some headers)) <-> Forall validEntry headers.
Proof. apply forOf_returns_iff. Qed.

(** A value with exactly one double quote splits around it. *)
Lemma count_one_split (s : jsstring) :
  count_occ N.eq_dec s DQ = 1%nat ->
  exists a b, s = a ++ DQ :: b /\
              forallb notDQ a = true /\ forallb notDQ b = true.
Proof.
  induction s as [|c s IH]; [discriminate|].
  cbn [count_occ]. destruct (N.eq_dec c DQ) as [->|Hc].
  - intros H. injection H as H. exists [], s. repeat split.
    clear IH. induction s as [|d s IHs]; [reflexivity|].
    cbn [count_occ] in H. destruct (N.eq_dec d DQ) as [->|Hd]; [discriminate|].
    cbn [forallb]. rewrite (IHs H), andb_true_r.
    unfold notDQ, noneOf, oneOf. cbn [existsb].
    rewrite orb_false_r. apply negb_true_iff. now apply N.eqb_neq.
  - intros H. destruct (IH H) as (a & b & -> & Ha & Hb).
    exists (c :: a), b. repeat split; [|exact Hb].
    cbn [forallb]. rewrite Ha, andb_true_r.
    unfold notDQ, noneOf, oneOf. cbn [existsb].
    rewrite orb_false_r. apply negb_true_iff. now apply N.eqb_neq.
Qed.

(** The lookahead of the chaining patterns fails exactly on a remainder
    with one double quote. *)
Lemma chaining_lookahead_inv (post : jsstring) :
  Matches (NegLook oneQuoteToEnd) [] post ->
  count_occ N.eq_dec post DQ <> 1%nat.
Proof.
  intros [_ Hn] Hc. apply Hn.
  destruct (count_one_split post Hc) as (a & b & -> & Ha & Hb).
  exists (a ++ DQ :: b), []. split; [now rewrite app_nil_r|].
  exists a, (DQ :: b). repeat split; [exact Ha|].
  exists [DQ], b. repeat split.
  exists b, []. repeat split; [now rewrite app_nil_r|exact Hb].
Qed.

(** Everything the four injection patterns catch has an injection shape. *)
Lemma injectionShape_complete (value : jsstring) :
  existsb (fun pattern => test pattern value) injectionPatterns = true ->
  injectionShape value.
Proof.
  intros H. apply existsb_exists in H as (p & Hp & Ht).
  apply test_spec in Ht as (pre & m & post & -> & Hm).
  destruct Hp as [<-|[<-|[<-|[<-|[]]]]].
  - destruct Hm as (m1 & r1 & -> & H1 & (w1 & r2 & -> & Hw1 &
      (m3 & r3 & -> & (c & -> & Hc) & (id & r4 & -> & Hid &
      (w2 & m6 & -> & Hw2 & H6))))).
    cbn in H1, H6, Hw1, Hid, Hw2. subst m1 m6.
    match goal with |- injectionShape ?x =>
      replace x with (pre ++ ch ";" :: w1 ++ c :: id ++ w2 ++ ch "=" :: post)
    end.
    + now apply Assignment.
    + cbn. f_equal. f_equal. rewrite <- !app_assoc. cbn.
      now rewrite <- !app_assoc.
  - destruct Hm as (m1 & r1 & -> & H1 & (m2 & m3 & -> & H2 & H3)).
    cbn in H1, H2. subst m1 m2. destruct H3 as [-> H3].
    apply (Chaining (lit "&&") pre post); [now left|].
    apply chaining_lookahead_inv. split; [reflexivity|exact H3].
  - destruct Hm as (m1 & r1 & -> & H1 & (m2 & m3 & -> & H2 & H3)).
    cbn in H1, H2. subst m1 m2. destruct H3 as [-> H3].
    apply (Chaining (lit "||") pre post); [right; now left|].
    apply chaining_lookahead_inv. split; [reflexivity|exact H3].
  - destruct Hm as [(m1 & m2 & -> & H1 & H2)|(m1 & m2 & -> & H1 & H2)];
      cbn in H1, H2; subst m1 m2.
    + apply (Substitution (lit "$(") pre post). now left.
    + apply (Substitution (lit "${") pre post). right. now left.
Qed.

Lemma injectionShape_iff (value : jsstring) :
  existsb (fun pattern => test pattern value) injectionPatterns = true <->
  injectionShape value.
Proof.
  split; [apply injectionShape_complete|apply injectionShape_matches].
Qed.

(** An entry passes the loop body exactly when it is well formed. *)
Lemma validEntry_iff (entry : jsstring * jsstring) :
  validEntry entry <-> wellFormedEntry entry.
Proof.
  destruct entry as [key value]. unfold validEntry, returns, wellFormedEntry.
  rewrite validateEntry_result.
  pose proof (test_oneOf_false dangerousKeySet key) as Hk.
  pose proof (test_oneOf_false dangerousValueSet value) as Hv.
  pose proof (injectionShape_iff value) as Hi.
  change (Cls (oneOf dangerousKeySet)) with dangerousKeyChars in Hk.
  change (Cls (oneOf dangerousValueSet)) with dangerousValueChars in Hv.
  unfold avoids.
  destruct key as [|k key]; cbn [falsy].
  { split; [discriminate|]. now intros [H _]. }
  destruct value as [|v value]; cbn [falsy].
  { split; [discriminate|]. now intros (_ & H & _). }
  destruct (N.ltb_spec MAX_HEADER_KEY_LENGTH (length (k :: key))) as [Hlk|Hlk].
  { split; [discriminate|]. intros (_ & _ & H & _).
    unfold MAX_HEADER_KEY_LENGTH in Hlk. lia. }
  destruct (N.ltb_spec MAX_HEADER_VALUE_LENGTH (length (v :: value))) as [Hlv|Hlv].
  { split; [discriminate|]. intros (_ & _ & _ & H & _).
    unfold MAX_HEADER_VALUE_LENGTH in Hlv. lia. }
  destruct (test dangerousKeyChars (k :: key)).
  { split; [discriminate|]. intros (_ & _ & _ & _ & H & _).
    apply Hk in H. discriminate. }
  destruct (test dangerousValueChars (v :: value)).
  { split; [discriminate|]. intros (_ & _ & _ & _ & _ & H & _).
    apply Hv in H. discriminate. }
  destruct (existsb _ injectionPatterns).
  { split; [discriminate|]. intros (_ & _ & _ & _ & _ & _ & H).
    exfalso. apply H. now apply Hi. }
  split; [|reflexivity]. intros _.
  repeat split; try discriminate; try assumption.
  - now apply Hk.
  - now apply Hv.
  - intros H. apply Hi in H. discriminate.
Qed.

(** X5. [validateHeaders] returns normally on a map exactly when every
    entry is well formed: key and value non-empty, key of at most 256 and
    value of at most 8192 code units, no code unit of the key class in the
    key, none of the value class in the value, and no injection shape in
    the value. *)
Theorem validateHeaders_returns_iff (headers : Headers) :
  returns (validateHeaders (Some headers)) <-> Forall wellFormedEntry headers.
Proof.
  rewrite validateHeaders_returns_Forall. split; intros H;
    (eapply Forall_impl; [|exact H]); intros e He; now apply validEntry_iff.
Qed.

(** X6. The verdict of [validateHeaders] on acceptance does not depend on
    the order of the entries, and a map is accepted exactly when its parts
    are: two maps that are permutations of each other are accepted
    together, and the concatenation of two maps is accepted exactly when
    both are.  (Which message a rejected map gets does depend on the
    order.) *)
Theorem validateHeaders_order_and_parts (h1 h2 : Headers) :
  (Permutation h1 h2 ->
   (returns (validateHeaders (Some h1)) <-> returns (validateHeaders (Some h2)))) /\
  (returns (validateHeaders (Some (h1 ++ h2))) <->
   returns (validateHeaders (Some h1)) /\ returns (validateHeaders (Some h2))).
Proof.
  rewrite !validateHeaders_returns_Forall. split.
  - intros Hp. split; apply Permutation_Forall; [exact Hp|now symmetry].
  - apply Forall_app.
Qed.

Lemma validateHeaders_order_and_parts_witness :
  returns (validateHeaders
             (Some [(lit "X-Figma-Token", lit "valid_token");
                    (lit "Authorization", lit "Bearer fig_token_123")])).
Proof.
  apply (proj1 (validateHeaders_order_and_parts
                  [(lit "Authorization", lit "Bearer fig_token_123");
                   (lit "X-Figma-Token", lit "valid_token")]
                  [(lit "X-Figma-Token", lit "valid_token");
                   (lit "Authorization", lit "Bearer fig_token_123")])
               (perm_swap _ _ [])).
  vm_compute. reflexivity.
Defined.

(** X7. A map with a key that holds a code unit of the key class, or a
    value that holds one of the value class, is never accepted, wherever
    the entry stands and whatever the other entries are.  Both classes
    hold line feed (10) and carriage return (13): no accepted header spans
    a line. *)
Theorem validateHeaders_rejects_class_units
  (headers : Headers) (key value : jsstring) (c : N) :
  In (key, value) headers ->
  (In c key /\ In c dangerousKeySet) \/ (In c value /\ In c dangerousValueSet) ->
  fails (validateHeaders (Some headers)).
Proof.
  intros Hin Hc.
  apply (validateHeaders_some_invalid headers (key, value) Hin).
  unfold fails. rewrite validateEntry_result.
  assert (Ht : test dangerousKeyChars key = true \/
               test dangerousValueChars value = true).
  { destruct Hc as [[H1 H2]|[H1 H2]]; [left|right];
      apply test_oneOf; now exists c. }
  repeat match goal with |- context [if ?b then _ else _] =>
    destruct b eqn:?; eauto end.
  destruct Ht; discriminate.
Qed.

Lemma validateHeaders_rejects_class_units_witness :
  fails (validateHeaders
           (Some [(lit "Accept", lit "text/html");
                  (lit "X-Note", lit "first" ++ [13; 10] ++ lit "Injected: yes")])).
Proof.
  apply (validateHeaders_rejects_class_units
           [(lit "Accept", lit "text/html");
            (lit "X-Note", lit "first" ++ [13; 10] ++ lit "Injected: yes")]
           (lit "X-Note") (lit "first" ++ [13; 10] ++ lit "Injected: yes") 13).
  - right. now left.
  - right. split; vm_compute; tauto.
Defined.

(** A match of the substitution pattern holds a dollar sign. *)
Lemma commandSubstitution_has_dollar (value : jsstring) :
  test commandSubstitution value = true ->
  test dangerousValueChars value = true.
Proof.
  intros H. apply test_spec in H as (pre & m & post & -> & Hm).
  destruct Hm as [(m1 & m2 & -> & H1 & H2)|(m1 & m2 & -> & H1 & H2)];
    cbn in H1, H2; subst m1 m2.
  - apply (substitution_is_dangerous_value (lit "$(")). now left.
  - apply (substitution_is_dangerous_value (lit "${")). right. now left.
Qed.

(** X8. When [validateHeaders] reports
    [Header value contains potential injection pattern], some value of the
    map holds no code unit of the value class and matches the assignment
    pattern or one of the two chaining patterns: the fourth pattern, for
    command substitution, never decides, because every value it matches is
    stopped by the character check before the scan. *)
Theorem validateHeaders_injection_origin (headers : Headers) :
  throws (validateHeaders (Some headers))
         (lit "Header value contains potential injection pattern") ->
  exists key value,
    In (key, value) headers /\
    test dangerousValueChars value = false /\
    test commandSubstitution value = false /\
    (test variableAssignment value = true \/
     test andChain value = true \/ test orChain value = true).
Proof.
  intros H. apply forOf_throws_inv in H as ([key value] & Hin & He).
  exists key, value. split; [exact Hin|].
  rewrite validateEntry_result in He.
  pose proof (commandSubstitution_has_dollar value) as Hsub.
  destruct (falsy key); [exfalso; vm_compute in He; discriminate He|].
  destruct (falsy value); [exfalso; vm_compute in He; discriminate He|].
  destruct (MAX_HEADER_KEY_LENGTH <? length key);
    [exfalso; vm_compute in He; discriminate He|].
  destruct (MAX_HEADER_VALUE_LENGTH <? length value);
    [exfalso; vm_compute in He; discriminate He|].
  destruct (test dangerousKeyChars key);
    [exfalso; vm_compute in He; discriminate He|].
  destruct (test dangerousValueChars value) eqn:Hv;
    [exfalso; vm_compute in He; discriminate He|].
  destruct (existsb _ injectionPatterns) eqn:Hex; [|discriminate He].
  split; [reflexivity|].
  assert (Hs : test commandSubstitution value = false).
  { destruct (test commandSubstitution value); [|reflexivity].
    now specialize (Hsub eq_refl). }
  split; [exact Hs|].
  cbn [existsb injectionPatterns] in Hex. rewrite Hs, !orb_false_r in Hex.
  apply orb_true_iff in Hex as [Hx|Hex]; [now left|].
  apply orb_true_iff in Hex as [Hx|Hx]; auto.
Qed.

Lemma validateHeaders_injection_origin_witness :
  exists key value,
    In (key, value) [(lit "Custom-Header", lit "value && curl evil.com")] /\
    test dangerousValueChars value = false /\
    test commandSubstitution value = false /\
    (test variableAssignment value = true \/
     test andChain value = true \/ test orChain value = true).
Proof.
  apply (validateHeaders_injection_origin
           [(lit "Custom-Header", lit "value && curl evil.com")]).
  vm_compute. reflexivity.
Defined.

(** X9. The three character classes are layered: every code unit of the
    URL class and every code unit of the header value class is in the
    header key class.  A string that trips the URL check or the value
    check also trips the key check, so an accepted key is free of both. *)
Theorem character_classes_layered (s : jsstring) :
  (test dangerousChars s = true -> test dangerousKeyChars s = true) /\
  (test dangerousValueChars s = true -> test dangerousKeyChars s = true).
Proof.
  split; intros H; apply test_oneOf in H as (c & Hs & Hc);
    apply test_oneOf; exists c; (split; [exact Hs|]);
    repeat (destruct Hc as [<-|Hc]; [vm_compute; tauto|]); contradiction.
Qed.

Lemma character_classes_layered_witness :
  test dangerousKeyChars (lit "key<script>") = true.
Proof.
  apply (proj2 (character_classes_layered (lit "key<script>"))).
  vm_compute. reflexivity.
Defined.

(** The run of the loop body of [validateHeaders], check by check. *)
Lemma validateEntry_run (key value : jsstring) :
  validateEntry (key, value) =
  if falsy key
  then ([], inl (Error (lit "Header key must be a non-empty string")))
  else if falsy value
  then ([], inl (Error (lit "Header value must be a non-empty string")))
  else if MAX_HEADER_KEY_LENGTH <? length key
  then ([], inl (Error (lit "Header key exceeds maximum length of 256 characters")))
  else if MAX_HEADER_VALUE_LENGTH <? length value
  then ([], inl (Error (lit "Header value exceeds maximum length of 8192 characters")))
  else if test dangerousKeyChars key
  then ([lit "[Security] Blocked header key with dangerous characters: " ++ key],
        inl (Error (lit "Header key contains potentially dangerous characters")))
  else if test dangerousValueChars value
  then ([valueLogPrefix ++ substring0 50 value ++ lit "..."],
        inl (Error (lit "Header value contains potentially dangerous characters")))
  else if existsb (fun pattern => test pattern value) injectionPatterns
  then ([lit "[Security] Blocked header value with injection pattern: "
           ++ substring0 50 value ++ lit "..."],
        inl (Error (lit "Header value contains potential injection pattern")))
  else ([], inr tt).
Proof.
  unfold validateEntry.
  destruct (falsy key); [reflexivity|]. rewrite run_guard_skip.
  destruct (falsy value); [reflexivity|]. rewrite run_guard_skip.
  destruct (MAX_HEADER_KEY_LENGTH <? length key); [reflexivity|].
  rewrite run_guard_skip.
  destruct (MAX_HEADER_VALUE_LENGTH <? length value); [reflexivity|].
  rewrite run_guard_skip.
  destruct (test dangerousKeyChars key); [reflexivity|]. rewrite run_guard_skip.
  destruct (test dangerousValueChars value); [reflexivity|].
  rewrite run_guard_skip.
  apply (run_forOf_guard injectionPatterns (fun pattern => test pattern value)).
Qed.

(** The log lines of a loop: those of the first element whose body
    throws, when the bodies that return log nothing. *)
Lemma logs_forOf {A : Type} (xs : list A) (body : A -> M unit)
      (P : jsstring -> Prop) :
  (forall x, returns (body x) -> logs (body x) = []) ->
  (forall x, (List.length (logs (body x)) <= 1)%nat) ->
  (forall x line, In x xs -> In line (logs (body x)) -> P line) ->
  (returns (forOf xs body) -> logs (forOf xs body) = []) /\
  (List.length (logs (forOf xs body)) <= 1)%nat /\
  (forall line, In line (logs (forOf xs body)) -> P line).
Proof.
  intros Hret Hone HP. induction xs as [|x xs IH].
  - cbn. repeat split; auto. now intros line [].
  - unfold returns. cbn [forOf]. rewrite result_bind, logs_bind.
    destruct (result (body x)) as [e|[]] eqn:Hx.
    + split; [discriminate|]. split; [apply Hone|].
      intros line Hl. apply (HP x line); [now left|exact Hl].
    + rewrite (Hret x Hx). cbn [app].
      apply IH. intros y line Hy. apply HP. now right.
Qed.

(** X10. What [validateHeaders] hands to the logger: nothing when it
    returns normally, at most one line otherwise, and a line of at most
    313 code units whatever the sizes of the keys and values (a key is
    logged in full, but only after its length was checked; of a value the
    first 50 code units are logged). *)
Theorem validateHeaders_logging (headers : option Headers) :
  (returns (validateHeaders headers) -> logs (validateHeaders headers) = []) /\
  (List.length (logs (validateHeaders headers)) <= 1)%nat /\
  (forall line, In line (logs (validateHeaders headers)) -> length line <= 313).
Proof.
  destruct headers as [h|].
  2:{ cbn. repeat split; auto. now intros line []. }
  cbn [validateHeaders]. unfold Object_entries.
  apply logs_forOf.
  - intros [key value]. unfold returns. rewrite validateEntry_run.
    repeat match goal with |- context [if ?b then _ else _] => destruct b end;
      cbn [result logs fst snd]; congruence.
  - intros [key value]. rewrite validateEntry_run.
    repeat match goal with |- context [if ?b then _ else _] => destruct b end;
      cbn [logs fst List.length]; lia.
  - intros [key value] line _. rewrite validateEntry_run.
    destruct (falsy key); [now intros []|].
    destruct (falsy value); [now intros []|].
    destruct (N.ltb_spec MAX_HEADER_KEY_LENGTH (length key)) as [Hk|Hk];
      [now intros []|].
    destruct (MAX_HEADER_VALUE_LENGTH <? length value); [now intros []|].
    pose proof (length_substring0 50 value) as Hs.
    destruct (test dangerousKeyChars key).
    { intros [<-|[]]. rewrite length_app_N. unfold MAX_HEADER_KEY_LENGTH in Hk.
      change (length (lit "[Security] Blocked header key with dangerous characters: "))
        with 57. lia. }
    destruct (test dangerousValueChars value).
    { intros [<-|[]]. rewrite !length_app_N.
      change (length valueLogPrefix) with 59. change (length (lit "...")) with 3.
      lia. }
    destruct (existsb _ injectionPatterns); [|now intros []].
    intros [<-|[]]. rewrite !length_app_N.
    change (length (lit "[Security] Blocked header value with injection pattern: "))
      with 56. change (length (lit "...")) with 3. lia.
Qed.

Lemma validateHeaders_logging_witness :
  logs (validateHeaders validHeaders) = [] /\
  length (lit "[Security] Blocked header key with dangerous characters: key|x")
    <= 313.
Proof.
  split.
  - apply (proj1 (validateHeaders_logging validHeaders)).
    vm_compute. reflexivity.
  - apply (proj2 (proj2 (validateHeaders_logging
                           (Some [(lit "key|x", lit "value")])))).
    vm_compute. left. reflexivity.
Defined.

(* ================================================================= *)
(** ** Further properties of validateCurlCommand *)

(** Everything the six patterns catch has a flagged shape. *)
Lemma flaggedShape_complete (command : jsstring) :
  existsb (fun pattern => test pattern command) dangerousPatterns = true ->
  flaggedShape command.
Proof.
  intros H. apply existsb_exists in H as (p & Hp & Ht).
  apply test_spec in Ht as (pre & m & post & -> & Hm).
  destruct Hp as [<-|[<-|[<-|[<-|[<-|[<-|[]]]]]]].
  - destruct Hm as (m1 & r1 & -> & H1 & (w & m3 & -> & Hw & (c & -> & Hc))).
    cbn in H1, Hw. subst m1.
    match goal with |- flaggedShape ?x =>
      replace x with (pre ++ lit ";" ++ w ++ c :: post)
        by (cbn; f_equal; f_equal; now rewrite <- app_assoc) end.
    apply SeparatorThenUnit; [now left|exact Hw|exact Hc].
  - destruct Hm as (m1 & r1 & -> & H1 & (w & m3 & -> & Hw & (c & -> & Hc))).
    cbn in H1, Hw. subst m1.
    match goal with |- flaggedShape ?x =>
      replace x with (pre ++ lit "|" ++ w ++ c :: post)
        by (cbn; f_equal; f_equal; now rewrite <- app_assoc) end.
    apply SeparatorThenUnit; [right; now left|exact Hw|exact Hc].
  - destruct Hm as (m1 & r1 & -> & H1 & (m2 & r2 & -> & H2 &
      (w & m3 & -> & Hw & (c & -> & Hc)))).
    cbn in H1, H2, Hw. subst m1 m2.
    match goal with |- flaggedShape ?x =>
      replace x with (pre ++ lit "&&" ++ w ++ c :: post)
        by (cbn; f_equal; f_equal; f_equal; now rewrite <- app_assoc) end.
    apply SeparatorThenUnit; [right; right; now left|exact Hw|exact Hc].
  - destruct Hm as (m1 & r1 & -> & H1 & (m2 & r2 & -> & H2 & _)).
    cbn in H1, H2. subst m1 m2.
    match goal with |- flaggedShape ?x =>
      replace x with (pre ++ lit "||" ++ (r2 ++ post)) by reflexivity end.
    apply TwoPipes.
  - destruct Hm as (m1 & r1 & -> & H1 & (mid & m3 & -> & Hmid & H3)).
    cbn in H1, H3, Hmid. subst m1 m3.
    match goal with |- flaggedShape ?x =>
      replace x with (pre ++ ch "`" :: mid ++ ch "`" :: post)
        by (cbn; f_equal; f_equal; now rewrite <- app_assoc) end.
    now apply BacktickPair.
  - destruct Hm as (m1 & r1 & -> & H1 & (m2 & r2 & -> & H2 &
      (mid & m3 & -> & Hmid & H3))).
    cbn in H1, H2, H3, Hmid. subst m1 m2 m3.
    match goal with |- flaggedShape ?x =>
      replace x with (pre ++ lit "$(" ++ mid ++ ch ")" :: post)
        by (cbn; f_equal; f_equal; f_equal; now rewrite <- app_assoc) end.
    now apply DollarParen.
Qed.

(** X11. [validateCurlCommand] returns normally exactly on the non-empty
    commands that start, after trimming, with [curl ] and have no flagged
    shape: no [;], [|] or [&&] followed by optional white space and a code
    unit other than a quote, no [||], no two backticks, no [$(] that is
    closed later. *)
Theorem validateCurlCommand_returns_iff (command : jsstring) :
  returns (validateCurlCommand command) <->
  command <> [] /\ startsWith (trim command) (lit "curl ") = true /\
  ~ flaggedShape command.
Proof.
  unfold returns. rewrite validateCurlCommand_result.
  destruct command as [|c command]; cbn [falsy].
  { split; [discriminate|]. now intros [H _]. }
  destruct (startsWith (trim (c :: command)) (lit "curl ")); cbn [negb].
  2:{ split; [discriminate|]. now intros (_ & H & _). }
  destruct (existsb _ dangerousPatterns) eqn:Hex.
  - split; [discriminate|]. intros (_ & _ & H). exfalso. apply H.
    now apply flaggedShape_complete.
  - split; [|reflexivity]. intros _. repeat split; [discriminate|].
    intros H. apply flaggedShape_matches in H. congruence.
Qed.

(** X12. The fourth pattern, for [||], is subsumed by the second, for
    [|]: whatever it matches the second matches too (the second pipe is
    the code unit other than a quote), so the set of rejected commands is
    the same without it. *)
Theorem or_pattern_subsumed (command : jsstring) :
  (test (nth 3 dangerousPatterns Eps) command = true ->
   test (nth 1 dangerousPatterns Eps) command = true) /\
  existsb (fun pattern => test pattern command) dangerousPatterns =
  existsb (fun pattern => test pattern command)
          (firstn 3 dangerousPatterns ++ skipn 4 dangerousPatterns).
Proof.
  assert (Hsub : test (nth 3 dangerousPatterns Eps) command = true ->
                 test (nth 1 dangerousPatterns Eps) command = true).
  { intros H. apply test_spec in H as (pre & m & post & -> & Hm).
    destruct Hm as (m1 & r1 & -> & H1 & (m2 & r2 & -> & H2 & _)).
    cbn in H1, H2. subst m1 m2.
    apply test_spec. exists pre, (lit "||"), (r2 ++ post).
    split; [now rewrite <- !app_assoc|].
    exists [ch "|"], [ch "|"]. repeat split.
    exists [], [ch "|"]. repeat split. now exists (ch "|"). }
  split; [exact Hsub|].
  cbn [existsb dangerousPatterns firstn skipn app nth] in *.
  destruct (test (Cat [Chr (ch "|"); Chr (ch "|"); StarCls ws; Cls notQuote]) command).
  - rewrite (Hsub eq_refl). now rewrite !orb_true_r.
  - reflexivity.
Qed.

Lemma or_pattern_subsumed_witness :
  test (nth 1 dangerousPatterns Eps) (lit "curl https://api.figma.com || rm file")
  = true.
Proof.
  apply (proj1 (or_pattern_subsumed (lit "curl https://api.figma.com || rm file"))).
  vm_compute. reflexivity.
Defined.

(** A pattern that begins with a literal code unit does not start at
    another one. *)
Lemma test_skip_unit (c x : N) (r : regex) (s : jsstring) :
  x <> c -> test (Seq (Chr c) r) (x :: s) = test (Seq (Chr c) r) s.
Proof.
  intros Hx. cbn [test]. unfold matchesAt at 1. cbn [rmatch].
  apply N.eqb_neq in Hx. now rewrite Hx.
Qed.

Lemma trimStart_whitespace (w s : jsstring) :
  forallb isWhiteSpace w = true -> trimStart (w ++ s) = trimStart s.
Proof.
  induction w as [|c w IH]; [reflexivity|].
  cbn [forallb app trimStart]. intros H. apply andb_true_iff in H as [Hc Hw].
  rewrite Hc. now apply IH.
Qed.

Lemma dangerousPatterns_skip_whitespace (w s : jsstring) (p : regex) :
  forallb isWhiteSpace w = true -> In p dangerousPatterns ->
  test p (w ++ s) = test p s.
Proof.
  intros Hw Hp. induction w as [|c w IH]; [reflexivity|].
  cbn [forallb] in Hw. apply andb_true_iff in Hw as [Hc Hw].
  rewrite <- (IH Hw). cbn [app].
  repeat (destruct Hp as [<-|Hp];
          [apply test_skip_unit; intros ->; vm_compute in Hc; discriminate Hc|]).
  contradiction.
Qed.

(** X13. White space in front of a command changes nothing: for a
    non-empty command, [validateCurlCommand] gives the same verdict, with
    the same message, on the command and on the command preceded by white
    space.  (White space behind it can: a separator at the very end is not
    flagged, a separator followed by a space is.) *)
Theorem validateCurlCommand_leading_whitespace (w command : jsstring) :
  forallb isWhiteSpace w = true -> command <> [] ->
  result (validateCurlCommand (w ++ command)) =
  result (validateCurlCommand command).
Proof.
  intros Hw Hne. rewrite !validateCurlCommand_result.
  assert (Hf : falsy (w ++ command) = false).
  { apply falsy_false. intros E. apply app_eq_nil in E as [_ E]. contradiction. }
  rewrite Hf, (falsy_false _ Hne). unfold trim.
  rewrite (trimStart_whitespace w command Hw).
  destruct (negb _); [reflexivity|].
  assert (He : existsb (fun pattern => test pattern (w ++ command)) dangerousPatterns
               = existsb (fun pattern => test pattern command) dangerousPatterns).
  { assert (Hall : forall ps, incl ps dangerousPatterns ->
              existsb (fun pattern => test pattern (w ++ command)) ps
              = existsb (fun pattern => test pattern command) ps).
    { induction ps as [|p ps IH]; [reflexivity|]. intros Hi. cbn [existsb].
      rewrite (dangerousPatterns_skip_whitespace w command p Hw)
        by (apply Hi; now left).
      rewrite IH; [reflexivity|]. intros q Hq. apply Hi. now right. }
    apply Hall. apply incl_refl. }
  now rewrite He.
Qed.

Lemma validateCurlCommand_leading_whitespace_witness :
  result (validateCurlCommand (lit "   curl https://api.figma.com | sh")) =
  result (validateCurlCommand (lit "curl https://api.figma.com | sh")) /\
  returns (validateCurlCommand (lit "curl https://api.figma.com/x;")) /\
  ~ returns (validateCurlCommand (lit "curl https://api.figma.com/x; ")).
Proof.
  split.
  - apply (validateCurlCommand_leading_whitespace (lit "   ")
             (lit "curl https://api.figma.com | sh")).
    + vm_compute. reflexivity.
    + discriminate.
  - split; vm_compute; [reflexivity|discriminate].
Defined.

(** What [trimStart] leaves begins with a code unit that is not white
    space. *)
Lemma trimStart_head (s : jsstring) :
  trimStart s = [] \/
  exists c t, trimStart s = c :: t /\ isWhiteSpace c = false.
Proof.
  induction s as [|c s IH]; [now left|].
  cbn [trimStart]. destruct (isWhiteSpace c) eqn:Hc; [exact IH|].
  right. now exists c, s.
Qed.

(** What [trimEnd] leaves ends with a code unit that is not white space. *)
Lemma trimEnd_last (s : jsstring) :
  trimEnd s = [] \/
  exists t c, trimEnd s = t ++ [c] /\ isWhiteSpace c = false.
Proof.
  unfold trimEnd. destruct (trimStart_head (rev s)) as [->|(c & t & -> & Hc)].
  - now left.
  - right. exists (rev t), c. split; [reflexivity|exact Hc].
Qed.

(** X14. An accepted command names something to fetch: after trimming it
    is [curl ] followed by at least one more code unit, and its last code
    unit is not white space.  The bare words [curl] and [curl ] (with
    trailing white space only) are rejected with
    [Command must start with curl]. *)
Theorem validateCurlCommand_needs_argument (command : jsstring) :
  (returns (validateCurlCommand command) ->
   exists arg c, trim command = lit "curl " ++ arg ++ [c] /\
                 isWhiteSpace c = false) /\
  (forall w, forallb isWhiteSpace w = true -> command = lit "curl" ++ w ->
     throws (validateCurlCommand command) (lit "Command must start with curl")).
Proof.
  split.
  - unfold returns. rewrite validateCurlCommand_result.
    destruct (falsy command); [discriminate|].
    destruct (startsWith (trim command) (lit "curl ")) eqn:Hs; [|discriminate].
    intros _. apply startsWith_inv in Hs as [rest Hr].
    unfold trim in *. destruct (trimEnd_last (trimStart command))
      as [E|(t & c & E & Hc)]; rewrite E in Hr.
    + discriminate Hr.
    + destruct rest as [|x rest] using rev_ind.
      * exfalso. change (lit "curl " ++ []) with (lit "curl" ++ [32]) in Hr.
        apply app_inj_tail in Hr as [_ ->]. discriminate Hc.
      * rewrite app_assoc in Hr. apply app_inj_tail in Hr as [-> ->].
        exists rest, x. split; [now rewrite E, <- app_assoc|exact Hc].
  - intros w Hw ->. unfold throws.
    rewrite validateCurlCommand_result. cbn [falsy lit app].
    assert (Ht : trim (lit "curl" ++ w) = lit "curl").
    { unfold trim, trimEnd. change (trimStart (lit "curl" ++ w)) with (lit "curl" ++ w).
      rewrite rev_app_distr, trimStart_whitespace; [reflexivity|].
      rewrite forallb_forall in *. intros x Hx. apply Hw. now apply in_rev. }
    change (List.map N_of_ascii (list_ascii_of_string "curl") ++ w)
      with (lit "curl" ++ w).
    assert (Hf : falsy (lit "curl" ++ w) = false) by reflexivity.
    rewrite Hf, Ht. reflexivity.
Qed.

Lemma validateCurlCommand_needs_argument_witness :
  throws (validateCurlCommand (lit "curl  ")) (lit "Command must start with curl").
Proof.
  apply (proj2 (validateCurlCommand_needs_argument (lit "curl  ")) (lit "  ")).
  - vm_compute. reflexivity.
  - reflexivity.
Defined.

(** X15. The two prefix checks of [validateCurlCommand] and their
    precedence: the empty command gets
    [Command must be a non-empty string]; a non-empty command that does not
    start, after trimming, with [curl ] gets [Command must start with curl],
    whatever else it holds. *)
Theorem validateCurlCommand_prefix_errors (command : jsstring) :
  (command = [] ->
   throws (validateCurlCommand command)
          (lit "Command must be a non-empty string")) /\
  (command <> [] -> startsWith (trim command) (lit "curl ") = false ->
   throws (validateCurlCommand command) (lit "Command must start with curl")).
Proof.
  unfold throws. split.
  - intros ->. reflexivity.
  - intros Hne Hs. now rewrite validateCurlCommand_result, (falsy_false _ Hne), Hs.
Qed.

Lemma validateCurlCommand_prefix_errors_witness :
  throws (validateCurlCommand (lit "bash -c 'curl https://api.figma.com; id'"))
         (lit "Command must start with curl").
Proof.
  apply (proj2 (validateCurlCommand_prefix_errors
                  (lit "bash -c 'curl https://api.figma.com; id'"))).
  - discriminate.
  - vm_compute. reflexivity.
Defined.

(** A value without the four code units the injection patterns begin with
    has no injection shape. *)
Lemma injectionShape_needs_head (value : jsstring) :
  injectionShape value -> exists c, In c value /\ In c injectionHeads.
Proof.
  intros H.
  destruct H as [pre w1 id w2 post c _ _ _ _ | tok pre post Htok _
                | tok pre post Htok].
  - exists (ch ";"). split; [|vm_compute; tauto].
    apply in_or_app. right. now left.
  - destruct Htok as [<-|[<-|[]]].
    + exists (ch "&"). split; [|vm_compute; tauto].
      apply in_or_app. right. now left.
    + exists (ch "|"). split; [|vm_compute; tauto].
      apply in_or_app. right. now left.
  - exists (ch "$"). split; [|vm_compute; tauto].
    apply in_or_app. right. destruct Htok as [<-|[<-|[]]]; now left.
Qed.

(** X16. A sufficient alphabet for headers: a map is accepted when every
    key and value is non-empty and within its length ceiling, no key holds
    a code unit of the key class, and no value holds a code unit of the
    value class or one of [; & |]. *)
Theorem validateHeaders_safe_alphabet (headers : Headers) :
  Forall (fun entry =>
            fst entry <> [] /\ snd entry <> [] /\
            length (fst entry) <= 256 /\ length (snd entry) <= 8192 /\
            avoids dangerousKeySet (fst entry) /\
            avoids dangerousValueSet (snd entry) /\
            avoids (lit ";&|") (snd entry)) headers ->
  returns (validateHeaders (Some headers)).
Proof.
  intros H. apply validateHeaders_returns_Forall.
  eapply Forall_impl; [|exact H].
  intros [key value] (Hk & Hv & Hlk & Hlv & Hkc & Hvc & Hsep). cbn [fst snd] in *.
  apply validEntry_iff. repeat split; auto.
  intros Hs. apply injectionShape_needs_head in Hs as (c & Hc & Hh).
  destruct Hh as [<-|[<-|[<-|[<-|[]]]]].
  - apply (Hsep _ Hc). vm_compute. tauto.
  - apply (Hsep _ Hc). vm_compute. tauto.
  - apply (Hsep _ Hc). vm_compute. tauto.
  - apply (Hvc _ Hc). vm_compute. tauto.
Qed.

(** A computable test of [avoids]. *)
Lemma avoids_check (set s : jsstring) :
  forallb (noneOf set) s = true -> avoids set s.
Proof.
  intros H c Hc Hs. rewrite forallb_forall in H. specialize (H c Hc).
  unfold noneOf, oneOf in H. apply negb_true_iff in H.
  apply not_true_iff_false in H. apply H. apply existsb_exists.
  exists c. split; [exact Hs|apply N.eqb_refl].
Qed.

Lemma validateHeaders_safe_alphabet_witness :
  returns (validateHeaders
             (Some [(lit "Authorization", lit "Bearer fig_token_123")])).
Proof.
  apply validateHeaders_safe_alphabet.
  constructor; [|constructor]. cbn [fst snd].
  repeat split; try discriminate;
    try (vm_compute; discriminate);
    (apply avoids_check; vm_compute; reflexivity).
Defined.

(** X17. A sufficient alphabet for commands: a non-empty command that
    starts, after trimming, with [curl ] and holds none of the five code
    units [; | & ` $] is accepted, whatever quotes, redirections or other
    code units it holds. *)
Theorem validateCurlCommand_safe_alphabet (command : jsstring) :
  command <> [] ->
  startsWith (trim command) (lit "curl ") = true ->
  avoids patternHeads command ->
  returns (validateCurlCommand command).
Proof.
  intros Hne Hcurl Hfree. unfold returns.
  rewrite validateCurlCommand_result, (falsy_false _ Hne), Hcurl. cbn [negb].
  destruct (existsb _ dangerousPatterns) eqn:Hex; [|reflexivity].
  apply existsb_exists in Hex as (p & Hp & Ht).
  rewrite (validateCurlCommand_needs_metacharacter command Hfree p Hp) in Ht.
  discriminate.
Qed.

Lemma validateCurlCommand_safe_alphabet_witness :
  returns (validateCurlCommand
             (lit "curl -s -S --fail-with-body -L -H 'Accept: a' https://api.figma.com/v1/me")).
Proof.
  apply validateCurlCommand_safe_alphabet.
  - discriminate.
  - vm_compute. reflexivity.
  - apply avoids_check. vm_compute. reflexivity.
Defined.

(* ================================================================= *)
(** ** The validators together *)

Lemma hasInk_rev (s : jsstring) : hasInk s -> hasInk (rev s).
Proof. intros (c & Hc & Hw). exists c. split; [now apply in_rev in Hc|exact Hw]. Qed.

Lemma trimStart_app_ink (a b : jsstring) :
  hasInk a -> trimStart (a ++ b) = trimStart a ++ b.
Proof.
  induction a as [|c a IH]; intros (x & Hx & Hw).
  - contradiction.
  - cbn [app trimStart]. destruct (isWhiteSpace c) eqn:Hc; [|reflexivity].
    apply IH. exists x. split; [|exact Hw].
    destruct Hx as [->|Hx]; [congruence|exact Hx].
Qed.

Lemma trimEnd_app_ink (p t : jsstring) :
  hasInk t -> trimEnd (p ++ t) = p ++ trimEnd t.
Proof.
  intros Ht. unfold trimEnd.
  rewrite rev_app_distr, (trimStart_app_ink _ _ (hasInk_rev t Ht)).
  now rewrite rev_app_distr, rev_involutive.
Qed.

(** An accepted URL holds no dangerous character. *)
Lemma validateUrl_returns_safe
      (URL_new : jsstring -> option URL) (url : jsstring) :
  returns (validateUrl URL_new url) -> ~ hasDangerous url.
Proof.
  unfold returns. rewrite validateUrl_run. intros H Hd.
  apply dangerousChars_spec in Hd. rewrite Hd in H.
  destruct (falsy url); [discriminate|].
  destruct (MAX_URL_LENGTH <? length url); [discriminate|].
  destruct (URL_new url) as [u|]; [|discriminate].
  destruct (negb _); discriminate.
Qed.

(** X18. The URL check covers the command check: when [validateUrl]
    accepts a URL, the command line made of [curl ], options that hold
    none of the code units [; | & ` $], and the URL (unquoted, as in the
    commands of the validator's tests) is accepted by
    [validateCurlCommand].  The URL must hold a code unit that is not
    white space. *)
Theorem validated_url_passes_command_check
  (URL_new : jsstring -> option URL) (url options : jsstring) :
  returns (validateUrl URL_new url) -> hasInk url ->
  avoids patternHeads options ->
  returns (validateCurlCommand (lit "curl " ++ options ++ url)).
Proof.
  intros Hurl Hink Hopt. unfold returns.
  rewrite validateCurlCommand_result.
  assert (Hf : falsy (lit "curl " ++ options ++ url) = false) by reflexivity.
  rewrite Hf.
  assert (Ht : startsWith (trim (lit "curl " ++ options ++ url)) (lit "curl ") = true).
  { unfold trim.
    change (trimStart (lit "curl " ++ options ++ url))
      with (lit "curl " ++ options ++ url).
    rewrite trimEnd_app_ink; [apply startsWith_app|].
    destruct Hink as (c & Hc & Hw). exists c. split; [|exact Hw].
    apply in_or_app. now right. }
  rewrite Ht. cbn [negb].
  destruct (existsb _ dangerousPatterns) eqn:Hex; [|reflexivity].
  apply existsb_exists in Hex as (p & Hp & Hm).
  rewrite (validateCurlCommand_needs_metacharacter
             (lit "curl " ++ options ++ url)) in Hm; [discriminate| |exact Hp].
  intros c Hc Hh. apply in_app_or in Hc as [Hc|Hc].
  - repeat (destruct Hc as [<-|Hc];
            [vm_compute in Hh; intuition discriminate|]).
    contradiction.
  - apply in_app_or in Hc as [Hc|Hc]; [exact (Hopt c Hc Hh)|].
    apply (validateUrl_returns_safe URL_new url Hurl).
    exists c. split; [exact Hc|].
    repeat (destruct Hh as [<-|Hh]; [vm_compute; tauto|]). contradiction.
Qed.

Lemma validated_url_passes_command_check_witness :
  returns (validateCurlCommand
             (lit "curl " ++ lit "-s -S --fail-with-body -L "
                ++ lit "https://api.figma.com/v1/files/abc123")).
Proof.
  apply (validated_url_passes_command_check Platform.URL_new).
  - vm_compute. reflexivity.
  - exists (ch "h"). split; [now left|reflexivity].
  - apply avoids_check. vm_compute. reflexivity.
Defined.

(** The run of [validateCurlCommand], stage by stage. *)
Lemma validateCurlCommand_run (command : jsstring) :
  validateCurlCommand command =
  if falsy command
  then ([], inl (Error (lit "Command must be a non-empty string")))
  else if negb (startsWith (trim command) (lit "curl "))
  then ([], inl (Error (lit "Command must start with curl")))
  else if existsb (fun pattern => test pattern command) dangerousPatterns
  then ([commandLogPrefix ++ substring0 100 command ++ lit "..."],
        inl (Error (lit "Curl command contains potentially dangerous patterns")))
  else ([], inr tt).
Proof.
  unfold validateCurlCommand.
  destruct (falsy command); [reflexivity|]. rewrite run_guard_skip.
  destruct (negb _); [reflexivity|]. rewrite run_guard_skip.
  apply (run_forOf_guard dangerousPatterns (fun pattern => test pattern command)).
Qed.

(** X19. What [validateCurlCommand] hands to the logger: nothing when it
    returns normally or fails a prefix check; it logs only on the pattern
    rejection, and then exactly one line, which carries the first 100 code
    units of the command and is at most 159 code units long, whatever the
    length of the command. *)
Theorem validateCurlCommand_logging (command : jsstring) :
  (returns (validateCurlCommand command) ->
   logs (validateCurlCommand command) = []) /\
  (logs (validateCurlCommand command) <> [] ->
   throws (validateCurlCommand command)
          (lit "Curl command contains potentially dangerous patterns") /\
   logs (validateCurlCommand command) =
     [commandLogPrefix ++ substring0 100 command ++ lit "..."]) /\
  length (commandLogPrefix ++ substring0 100 command ++ lit "...") <= 159 /\
  (throws (validateCurlCommand command)
          (lit "Curl command contains potentially dangerous patterns") ->
   logs (validateCurlCommand command) =
     [commandLogPrefix ++ substring0 100 command ++ lit "..."]).
Proof.
  split; [|split; [|split]].
  - unfold returns. rewrite validateCurlCommand_run.
    repeat match goal with |- context [if ?b then _ else _] => destruct b end;
      cbn [result logs fst snd]; congruence.
  - unfold throws. rewrite validateCurlCommand_run.
    repeat match goal with |- context [if ?b then _ else _] => destruct b end;
      cbn [result logs fst snd]; intros H; try (now contradiction H).
    split; reflexivity.
  - rewrite !length_app_N. pose proof (length_substring0 100 command) as H.
    change (length commandLogPrefix) with 56. change (length (lit "...")) with 3.
    lia.
  - unfold throws. rewrite validateCurlCommand_run.
    repeat match goal with |- context [if ?b then _ else _] => destruct b end;
      cbn [result logs fst snd]; intros H;
      try reflexivity; exfalso; vm_compute in H; discriminate H.
Qed.

Lemma validateCurlCommand_logging_witness :
  logs (validateCurlCommand redirected) = [] /\
  logs (validateCurlCommand (lit "curl https://api.figma.com | sh")) =
    [commandLogPrefix ++ substring0 100 (lit "curl https://api.figma.com | sh")
       ++ lit "..."].
Proof.
  split.
  - apply (proj1 (validateCurlCommand_logging redirected)).
    vm_compute. reflexivity.
  - apply (proj2 (proj2 (proj2
             (validateCurlCommand_logging (lit "curl https://api.figma.com | sh"))))).
    vm_compute. reflexivity.
Defined.

(** X20. The two character messages of [validateHeaders] and their
    precedence.  For the first invalid entry of a map, with key and value
    non-empty and within their ceilings: a key with a code unit of the key
    class gets [Header key contains potentially dangerous characters],
    whatever the value holds; a clean key and a value with a code unit of
    the value class get
    [Header value contains potentially dangerous characters], whatever
    injection pattern the value matches. *)
Theorem validateHeaders_character_messages
  (pre post : Headers) (key value : jsstring) :
  Forall validEntry pre ->
  key <> [] -> value <> [] -> length key <= 256 -> length value <= 8192 ->
  (~ avoids dangerousKeySet key ->
   throws (validateHeaders (Some (pre ++ (key, value) :: post)))
          (lit "Header key contains potentially dangerous characters")) /\
  (avoids dangerousKeySet key -> ~ avoids dangerousValueSet value ->
   throws (validateHeaders (Some (pre ++ (key, value) :: post)))
          (lit "Header value contains potentially dangerous characters")).
Proof.
  intros Hpre Hk Hv Hlk Hlv. unfold throws.
  pose proof (test_oneOf_false dangerousKeySet key) as Hkc.
  pose proof (test_oneOf_false dangerousValueSet value) as Hvc.
  change (Cls (oneOf dangerousKeySet)) with dangerousKeyChars in Hkc.
  change (Cls (oneOf dangerousValueSet)) with dangerousValueChars in Hvc.
  assert (Hshape : forall r,
    (if test dangerousKeyChars key
     then inl (Error (lit "Header key contains potentially dangerous characters"))
     else if test dangerousValueChars value
     then inl (Error (lit "Header value contains potentially dangerous characters"))
     else if existsb (fun pattern => test pattern value) injectionPatterns
     then inl (Error (lit "Header value contains potential injection pattern"))
     else inr tt) = inl r ->
    result (validateHeaders (Some (pre ++ (key, value) :: post))) = inl r).
  { intros r Hr. apply validateHeaders_first_invalid; [exact Hpre|].
    rewrite validateEntry_result, (falsy_false _ Hk), (falsy_false _ Hv).
    replace (MAX_HEADER_KEY_LENGTH <? length key) with false
      by (symmetry; apply N.ltb_ge; exact Hlk).
    replace (MAX_HEADER_VALUE_LENGTH <? length value) with false
      by (symmetry; apply N.ltb_ge; exact Hlv).
    exact Hr. }
  unfold avoids. split.
  - intros Hn. apply Hshape.
    assert (Ht : test dangerousKeyChars key = true).
    { apply not_false_iff_true. intros E. apply Hn. now apply Hkc. }
    now rewrite Ht.
  - intros Hclean Hn. apply Hshape.
    apply Hkc in Hclean. rewrite Hclean.
    assert (Ht : test dangerousValueChars value = true).
    { apply not_false_iff_true. intros E. apply Hn. now apply Hvc. }
    now rewrite Ht.
Qed.

Lemma validateHeaders_character_messages_witness :
  throws (validateHeaders
            (Some [(lit "Accept", lit "text/html");
                   (lit "key|curl evil.com", lit "value{dangerous}")]))
         (lit "Header key contains potentially dangerous characters").
Proof.
  refine (proj1 (validateHeaders_character_messages
                   [(lit "Accept", lit "text/html")] []
                   (lit "key|curl evil.com") (lit "value{dangerous}") _ _ _ _ _) _).
  - constructor; [vm_compute; reflexivity|constructor].
  - discriminate.
  - discriminate.
  - vm_compute. discriminate.
  - vm_compute. discriminate.
  - intros H. apply (H (ch "|")); vm_compute; tauto.
Defined.
